(** * monad_argparse: the combinator engine, embedded from the Python sources

    - [monad_argparse/monad.py]            : [Monad.do], the generator-driven do-notation
    - [monad_argparse/parser.py]           : the list-of-successes [Parser], its
                                             combinators and the surface parsers
    - [monad_argparse/parser/result.py]    : [Result] and its merge [__add__]
    - [monad_argparse/parser/nonpositional.py] : [nonpositional]

    Python code can raise; every function that can is given a result in the
    small exception monad [py] below. *)

From Stdlib Require Import List String Ascii Bool Arith Lia ZArith.
Import ListNotations.
Open Scope string_scope.
Open Scope list_scope.
Set Warnings "-register-all".

(** ** Python values and exceptions *)

(** The objects the parsers produce: tokens are [str], bindings are tuples,
    repetition results are lists, converters may produce anything. *)
Inductive value : Type :=
| VNone
| VBool (b : bool)
| VInt (z : Z)
| VStr (s : string)
| VTuple (xs : list value)
| VList (xs : list value).

(** Exception classes met in the sources; all of them derive from
    [Exception], so an [except Exception] clause catches each of them. *)
Inductive exn : Type :=
| ValueError (msg : string)
| RuntimeError (msg : string)
| TypeError (msg : string)
| AssertionError
| RecursionError.

(** A Python computation either returns or raises. *)
Inductive py (A : Type) : Type :=
| Return (a : A)
| Raise (e : exn).
Arguments Return {A} a.
Arguments Raise {A} e.

Definition py_bind {A B : Type} (m : py A) (k : A -> py B) : py B :=
  match m with
  | Return a => k a
  | Raise e => Raise e
  end.

Declare Scope py_scope.
Delimit Scope py_scope with py.
Notation "x <- m ;; k" := (py_bind m (fun x => k))
  (at level 61, m at next level, right associativity) : py_scope.
Notation "' pat <- m ;; k" := (py_bind m (fun x => match x with pat => k end))
  (at level 61, pat pattern, m at next level, right associativity) : py_scope.
Open Scope py_scope.

(** [try: body except Exception: handler] *)
Definition try_except {A : Type} (body : py A) (handler : py A) : py A :=
  match body with
  | Return a => Return a
  | Raise _ => handler
  end.

(** [for x in l: yield from g(x)], collected by [list(...)]: the pieces are
    produced in order and the first exception ends the loop. *)
Fixpoint yield_from_each {A B : Type} (g : A -> py (list B)) (l : list A)
  : py (list B) :=
  match l with
  | [] => Return []
  | x :: l' =>
      ys <- g x ;;
      zs <- yield_from_each g l' ;;
      Return (ys ++ zs)
  end.

Definition isinstance_tuple (v : value) : bool :=
  match v with VTuple _ => true | _ => false end.

Definition isinstance_list (v : value) : bool :=
  match v with VList _ => true | _ => false end.

Definition is_None (v : value) : bool :=
  match v with VNone => true | _ => false end.

(** ** parser.py : the Parser class *)

Definition StrList : Type := list string.

(** [List[Tuple[A, StrList]]] : the successes of one run. *)
Definition Parses : Type := list (value * StrList).

(** [class Parser: def __init__(self, f): self.f = f] *)
Record Parser : Type := mkParser { f : StrList -> py Parses }.

(** [def parse(self, cs): return self.f(cs)] *)
Definition parse (self : Parser) (cs : StrList) : py Parses := f self cs.

(** [Parser.ret] *)
Definition ret (x : value) : Parser :=
  mkParser (fun cs => Return [(x, cs)]).

(** [Parser.zero] *)
Definition zero : Parser :=
  mkParser (fun _ => Return []).

(** [Parser.bind]; the callback [f] runs Python code and may raise. *)
Definition bind (p : Parser) (f : value -> py Parser) : Parser :=
  mkParser (fun cs =>
    parsed <- parse p cs ;;
    yield_from_each (fun '(a, _cs) => f1 <- f a ;; parse f1 _cs) parsed).

(** [Parser.__add__] : all successes of both sides. *)
Definition add (self p : Parser) : Parser :=
  mkParser (fun cs =>
    l1 <- parse self cs ;;
    l2 <- parse p cs ;;
    Return (l1 ++ l2)).

(** [Parser.__or__] : [[x[0]] if x else []] over [(self + p).parse(cs)]. *)
Definition or_ (self p : Parser) : Parser :=
  mkParser (fun cs =>
    x <- parse (add self p) cs ;;
    Return (match x with
            | x0 :: _ => [x0]
            | [] => []
            end)).

Declare Scope parser_scope.
Delimit Scope parser_scope with parser.
Notation "p <|> q" := (or_ p q) (at level 50, left associativity) : parser_scope.
Open Scope parser_scope.

(** [Parser.parse_args] : the destructuring [(a, _), *_ = parsed] raises
    [ValueError] on the empty list; the handler around it is commented out in
    the source. *)
Definition parse_args (self : Parser) (args : StrList) : py value :=
  parsed <- parse self args ;;
  match parsed with
  | (a, _) :: _ => Return a
  | [] => Raise (ValueError "not enough values to unpack (expected at least 1, got 0)")
  end.

(** ** monad.py : Monad.do over a stateless iterator *)

(** What [it.send(y)] does on a [StatelessIterator]
    ([monad_argparse.stateless_iterator] is not among the available sources;
    [do] uses it through [send] only): it hands back the next yielded parser
    together with a fresh iterator, or the generator is exhausted, or the
    generator body raises. *)
Inductive sent : Type :=
| Yield (z : Parser) (it2 : value -> sent)
| StopIteration
| Raises (e : exn).

Definition StatelessIterator : Type := value -> sent.

Definition send (it : StatelessIterator) (y : value) : sent := it y.

(** The inner [f(y, it)] of [Monad.do], after [it.send(y)] has been made. *)
Fixpoint do_f (y : value) (s : sent) : py Parser :=
  match s with
  | StopIteration =>
      if is_None y
      then Raise (RuntimeError "Cannot use an empty iterator with do.")
      else Return (ret y)
  | Raises e => Raise e
  | Yield z it2 => Return (bind z (fun y' => do_f y' (send it2 y')))
  end.

(** [Monad.do(generator)] = [f(None, StatelessIterator(gen))]. *)
Definition do (generator : StatelessIterator) : py Parser :=
  do_f VNone (send generator VNone).

(** [class DoParser] : [f(cs) = Parser.do(g).parse(cs)]. *)
Definition DoParser (g : StatelessIterator) : Parser :=
  mkParser (fun cs => p <- do g ;; parse p cs).

(** ** parser.py : primitive and surface parsers *)

(** [class Item] *)
Definition Item : Parser :=
  mkParser (fun cs =>
    match cs with
    | c :: cs' => Return [(VStr c, cs')]
    | [] => Return []
    end).

(** [class Sat] *)
Definition Sat_g (predicate : value -> bool) : StatelessIterator :=
  fun _ =>
    Yield Item (fun c =>
      if predicate c
      then Yield (ret c) (fun _ => StopIteration)
      else Yield zero (fun _ => StopIteration)).

Definition Sat (predicate : value -> bool) : Parser :=
  mkParser (fun cs => p <- do (Sat_g predicate) ;; parse p cs).

(** [x == s] between a value and a string literal. *)
Definition str_eq (x : value) (s : string) : bool :=
  match x with
  | VStr s1 => String.eqb s1 s
  | _ => false
  end.

(** [class Eq] *)
Definition Eq (s : string) : Parser := Sat (fun s1 => str_eq s1 s).

(** [f"{short}"] for an optional string: [None] is formatted as the text
    [None]. *)
Definition format_opt (o : option string) : string :=
  match o with
  | Some s => s
  | None => "None"
  end.

(** [dest or long] : [None] and the empty string are falsy. *)
Definition dest_or (dest : option string) (long : string) : string :=
  match dest with
  | Some d => if String.eqb d "" then long else d
  | None => long
  end.

(** [x in [f"-{short}", f"--{long}"]], the predicate of [Flag] and [Option]. *)
Definition flag_predicate (long : string) (short : option string) (x : value) : bool :=
  str_eq x ("-" ++ format_opt short)%string || str_eq x ("--" ++ long)%string.

(** [class Flag] *)
Definition Flag_g (long : string) (short dest : option string) (value : bool)
  : StatelessIterator :=
  fun _ =>
    Yield (Sat (flag_predicate long short)) (fun _ =>
      Yield (ret (VTuple [VStr (dest_or dest long); VBool value]))
            (fun _ => StopIteration)).

Definition Flag (long : string) (short dest : option string) (value : bool) : Parser :=
  DoParser (Flag_g long short dest value).

(** [class Option] : [convert] is user code, it may raise. *)
Definition Option_g (long : string) (short : option string)
    (convert : option (value -> py value)) (dest : option string)
  : StatelessIterator :=
  fun _ =>
    Yield (Sat (flag_predicate long short)) (fun _ =>
      Yield Item (fun c2 =>
        let key := dest_or dest long in
        match try_except
                (value <- match convert with
                          | None => Return c2
                          | Some conv => conv c2
                          end ;;
                 Return (Yield (ret (VTuple [VStr key; value]))
                               (fun _ => StopIteration)))
                (Return (Yield zero (fun _ => StopIteration)))
        with
        | Return s => s
        | Raise e => Raises e
        end)).

Definition Option (long : string) (short : option string)
    (convert : option (value -> py value)) (dest : option string) : Parser :=
  DoParser (Option_g long short convert dest).

(** [class Argument] *)
Definition Argument_g (dest : string) : StatelessIterator :=
  fun _ =>
    Yield Item (fun c =>
      Yield (ret (VTuple [VStr dest; c])) (fun _ => StopIteration)).

Definition Argument (dest : string) : Parser := DoParser (Argument_g dest).

(** [Parser.many1] and [Parser.many].  The two call each other through
    [parse], once per repetition; [depth] bounds how deep these rounds of
    [many1] may nest.  One round takes several frames of the interpreter, so
    [depth] is not the interpreter's frame limit itself; running out of it
    stands for Python's [RecursionError]. *)
Definition many1_g (self many : Parser) : StatelessIterator :=
  fun _ =>
    Yield self (fun a =>
      if isinstance_tuple a then
        Yield many (fun aa =>
          match aa with
          | VList l => Yield (ret (VList ([a] ++ l))) (fun _ => StopIteration)
          | _ => Raises AssertionError
          end)
      else Raises AssertionError).

Fixpoint many1 (depth : nat) (self : Parser) : Parser :=
  match depth with
  | 0 => mkParser (fun _ => Raise RecursionError)
  | S d =>
      mkParser (fun cs =>
        p <- do (many1_g self (many1 d self <|> ret (VList []))) ;;
        parse p cs)
  end.

Definition many (depth : nat) (self : Parser) : Parser :=
  many1 depth self <|> ret (VList []).

(** A converter as a user would pass it to [Option]: [int] on an ASCII
    token.  As [int] does, it drops blanks around the literal, takes one
    optional sign, and reads decimal digits that single underscores may
    separate; on every other token it raises [ValueError]. *)
Definition digit_of (c : ascii) : option Z :=
  let n := nat_of_ascii c in
  if (48 <=? n)%nat && (n <=? 57)%nat then Some (Z.of_nat (n - 48)) else None.

Definition is_space (c : ascii) : bool :=
  let n := nat_of_ascii c in
  ((9 <=? n)%nat && (n <=? 13)%nat) || ((28 <=? n)%nat && (n <=? 32)%nat).

Fixpoint lstrip (l : list ascii) : list ascii :=
  match l with
  | c :: l' => if is_space c then lstrip l' else l
  | [] => []
  end.

Definition strip (l : list ascii) : list ascii :=
  rev (lstrip (rev (lstrip l))).

(** Digits with single underscores between them; [after_digit] tells whether
    the character just read was a digit. *)
Fixpoint digits_value (acc : Z) (after_digit : bool) (l : list ascii) : option Z :=
  match l with
  | [] => if after_digit then Some acc else None
  | c :: l' =>
      if Ascii.eqb c "_" then
        if after_digit then digits_value acc false l' else None
      else
        match digit_of c with
        | Some d => digits_value (10 * acc + d)%Z true l'
        | None => None
        end
  end.

Definition decimal_literal (s : string) : option Z :=
  match strip (list_ascii_of_string s) with
  | "-"%char :: l => option_map Z.opp (digits_value 0%Z false l)
  | "+"%char :: l => digits_value 0%Z false l
  | l => digits_value 0%Z false l
  end.

Definition convert_int (v : value) : py value :=
  match v with
  | VStr s =>
      match decimal_literal s with
      | Some z => Return (VInt z)
      | None =>
          Raise (ValueError ("invalid literal for int() with base 10: '" ++ s ++ "'")%string)
      end
  | VInt z => Return (VInt z)
  | VBool b => Return (VInt (if b then 1 else 0))
  | _ => Raise (TypeError "int() argument must be a string, a bytes-like object or a real number")
  end.

(** The outcome of a run in the sense of the data model: the best (first)
    success with its remainder, or failure when the list of successes is
    empty.  This is what [parse_args] looks at. *)
Definition outcome (p : Parser) (cs : StrList) : py (option (value * StrList)) :=
  parsed <- parse p cs ;;
  Return (hd_error parsed).

Definition outcome_equiv (p q : Parser) : Prop :=
  forall cs, outcome p cs = outcome q cs.

(** ** parser/result.py : Result *)

Module Result.

(** The exception classes that travel inside a [Result]
    ([monad_argparse.parser.error] is not among the available sources):
    [ArgumentError] is built in [Result.zero], [MissingError] and
    [UnequalError] are the ones shown by the doctests of
    [nonpositional]. *)
Inductive Exception : Type :=
| ArgumentError (description : string)
| MissingError (missing : string)
| UnequalError (left right : string).

(** [get: B | Exception] *)
Inductive payload (B : Type) : Type :=
| Plain (b : B)
| Exc (e : Exception).
Arguments Plain {B} b.
Arguments Exc {B} e.

Record Result (B : Type) : Type := mkResult { get : payload B }.
Arguments mkResult {B} get.
Arguments get {B} r.

Definition isinstance_Exception {B : Type} (x : payload B) : bool :=
  match x with
  | Exc _ => true
  | Plain _ => false
  end.

(** [Result.__add__] *)
Definition add {B : Type} (self other : Result B) : Result B :=
  if negb (isinstance_Exception (get self)) then self
  else if negb (isinstance_Exception (get other)) then other
  else self.

(** [Monoid.__or__] : [self + other] *)
Definition or_ {B : Type} (self other : Result B) : Result B := add self other.

(** [Result.bind] *)
Definition bind {B C : Type} (self : Result B) (f : B -> Result C) : Result C :=
  match get self with
  | Exc y => mkResult (Exc y)
  | Plain y => f y
  end.

(** [Result.return_] *)
Definition return_ {C : Type} (a : C) : Result C := mkResult (Plain a).

(** [Result.zero] *)
Definition zero {B : Type} : Result B := mkResult (Exc (ArgumentError "zero")).

(** A failure outcome. *)
Definition failure {B : Type} (e : Exception) : Result B := mkResult (Exc e).

(** A chain [r0 | r1 | ... | rn], as [reduce] builds it. *)
Definition chain {B : Type} (r0 : Result B) (rs : list (Result B)) : Result B :=
  fold_left or_ rs r0.

End Result.

(** ** parser/nonpositional.py : nonpositional *)

Section Nonpositional.

(** Modelled from the spec: [Parser.empty] of [monad_argparse.parser.parser],
    which is not under src/; the base case of [nonpositional] is
    [ret(empty)]. *)
Definition empty : Parser := ret (VList []).

(** Modelled from the spec: [concat(x, y)] of two binding sequences
    ([monad_argparse.parser.sequence] is not under src/). *)
Definition concat (x y : value) : py value :=
  match x, y with
  | VList xs, VList ys => Return (VList (xs ++ ys))
  | _, _ => Raise (TypeError "can only concatenate sequences")
  end.

(** Modelled from the spec: [>>] of [monad_argparse.parser.parser], which is
    not under src/: [bind(p, x => bind(q, y => ret(concat(x, y))))]. *)
Definition sequence (p q : Parser) : Parser :=
  bind p (fun x => Return (bind q (fun y => v <- concat x y ;; Return (ret v)))).

(** Modelled from the spec: [Flag] of [monad_argparse.parser.flag], which is
    not under src/: the flag matcher of parser.py with its binding as a
    one-element sequence. *)
Definition FlagSeq (long : string) : Parser :=
  bind (Flag long None None true) (fun kv => Return (ret (VList [kv]))).

(** [Done] of [monad_argparse.parser.done] is not under src/ and the spec
    only calls it an end-of-phase marker: it stays a parameter. *)
Variable Done : Parser.

(** [enumerate(parsers)] *)
Definition enumerate {A : Type} (l : list A) : list (nat * A) :=
  combine (seq 0 (List.length l)) l.

(** [[p for j, p in enumerate(parsers) if j != i]] *)
Definition without {A : Type} (i : nat) (l : list A) : list A :=
  map snd (filter (fun '(j, _) => negb (Nat.eqb j i)) (enumerate l)).

(** [reduce(function, iterable)] on an iterable with a first element. *)
Definition reduce {A : Type} (function : A -> A -> A) (first : A) (rest : list A) : A :=
  fold_left function rest first.

(** [nonpositional] over its argument tuple [parsers].  The recursive call is
    on a tuple one shorter; [n] counts the parsers left, so the branch [0] for
    a non-empty tuple is never taken, and neither is the branch for an empty
    list of alternatives ([enumerate] of a non-empty tuple is non-empty). *)
Fixpoint nonpositional_n (n : nat) (parsers : list Parser) : Parser :=
  match parsers with
  | [] => empty
  | _ :: _ =>
      match n with
      | 0 => empty
      | S n' =>
          let get_alternatives :=
            map (fun '(i, head) =>
                   sequence (sequence head (nonpositional_n n' (without i parsers))) Done)
                (enumerate parsers) in
          match get_alternatives with
          | alt :: alts => reduce or_ alt alts
          | [] => empty
          end
      end
  end.

Definition nonpositional (parsers : list Parser) : Parser :=
  nonpositional_n (List.length parsers) parsers.

End Nonpositional.

(** Modelled from the spec: an end-of-phase marker ([monad_argparse.parser.done]
    is not under src/): it binds nothing and succeeds once no token is left. *)
Definition done : Parser :=
  mkParser (fun cs =>
    match cs with
    | [] => Return [(VList [], [])]
    | _ :: _ => Return []
    end).

(** The spelling rule in the words of the specification: one dash for a
    one-character name, two dashes otherwise. *)
Definition spec_flag_spelling (name : string) : string :=
  if Nat.eqb (String.length name) 1 then ("-" ++ name)%string else ("--" ++ name)%string.

(** What the repetition theorem asks of the repeated parser: it never
    raises, each of its successes binds a tuple (the assertion in [many1]) and
    has consumed at least one token. *)
Definition consumes_and_binds_tuples (p : Parser) : Prop :=
  forall cs, exists parsed,
    parse p cs = Return parsed
    /\ Forall (fun r => isinstance_tuple (fst r) = true
                         /\ List.length (snd r) < List.length cs) parsed.

(** One round of [many1] on a success [(a, _cs)] of the repeated parser: the
    assertion on [a], the run of [many] on the remainder, the assertion on
    each of its values and the final [ret([a] + aa)]. *)
Definition many1_round (many : Parser) (r : value * StrList) : py Parses :=
  let '(a, _cs) := r in
  if isinstance_tuple a then
    parsed <- parse many _cs ;;
    yield_from_each
      (fun '(aa, cs2) =>
         match aa with
         | VList l => Return [(VList ([a] ++ l), cs2)]
         | _ => Raise AssertionError
         end) parsed
  else Raise AssertionError.

(** ** parser.py : sequencing and interleaving *)

(** [Parser.__rshift__] : the generator [g] and [Parser.do(g)], which is run
    when the combinator is applied. *)
Definition rshift_g (self p : Parser) : StatelessIterator :=
  fun _ =>
    Yield self (fun x1 =>
      Yield p (fun x2 =>
        Yield (ret (VList ([x1] ++ [x2]))) (fun _ => StopIteration))).

Definition rshift (self p : Parser) : py Parser := do (rshift_g self p).

(** Python's [+] on the values modelled here: numbers (booleans count as
    integers), strings, tuples and lists; every other pairing is a
    [TypeError]. *)
Definition int_of_bool (b : bool) : Z := if b then 1%Z else 0%Z.

Definition py_add (x y : value) : py value :=
  match x, y with
  | VInt a, VInt b => Return (VInt (a + b))
  | VInt a, VBool b => Return (VInt (a + int_of_bool b))
  | VBool a, VInt b => Return (VInt (int_of_bool a + b))
  | VBool a, VBool b => Return (VInt (int_of_bool a + int_of_bool b))
  | VStr a, VStr b => Return (VStr (a ++ b)%string)
  | VTuple a, VTuple b => Return (VTuple (a ++ b))
  | VList a, VList b => Return (VList (a ++ b))
  | _, _ => Raise (TypeError "unsupported operand type(s) for +")
  end.

(** The last statement of [interleave]: [yield Parser.ret(l1 + l2)]. *)
Definition yield_ret_sum (l1 l2 : value) : sent :=
  match py_add l1 l2 with
  | Return v => Yield (ret v) (fun _ => StopIteration)
  | Raise e => Raises e
  end.

(** [Parser.interleave].  The [try] block raises [ValueError] exactly when
    [positional] is empty (the destructuring [head, *tail = positional]); the
    other statements in it raise [TypeError] at most, which the handler does
    not catch.  Every [self.many()] gets the same recursion budget [depth]. *)
Fixpoint interleave (depth : nat) (self : Parser) (positional : list Parser)
  : StatelessIterator :=
  fun _ =>
    Yield (many depth self) (fun xs =>
      match positional with
      | head :: tail =>
          Yield head (fun x =>
            match py_add xs (VList [x]) with
            | Raise e => Raises e
            | Return l1 =>
                match do (interleave depth self tail) with
                | Raise e => Raises e
                | Return rest => Yield rest (fun l2 => yield_ret_sum l1 l2)
                end
            end)
      | [] =>
          Yield (many depth self) (fun l2 =>
            let l1 := xs in
            yield_ret_sum l1 l2)
      end).

(** [Parser.build] *)
Definition build (depth : nat) (non_positional : Parser) (positional : list Parser)
  : py Parser :=
  do (interleave depth non_positional positional).

(** The bindings [interleave] produces for positional [Argument]s alone. *)
Definition bind_positionals (dests : list string) (tokens : StrList) : list value :=
  map (fun '(dest, c) => VTuple [VStr dest; VStr c]) (combine dests tokens).

(** The number of leading tokens a predicate accepts. *)
Fixpoint leading (predicate : value -> bool) (cs : StrList) : nat :=
  match cs with
  | c :: cs' => if predicate (VStr c) then S (leading predicate cs') else 0
  | [] => 0
  end.

(** What [interleave] is expected to compute for a repeated flag and
    positional [Argument]s, written as a plain recursion on the input: skip
    and bind the leading run of flag tokens, bind the next token to the next
    positional argument, and go on; [None] when the tokens run out before the
    positional arguments do. *)
Fixpoint interleaved (predicate : value -> bool) (kv : value)
    (dests : list string) (cs : StrList) : option (list value * StrList) :=
  let n := leading predicate cs in
  let flags := repeat kv n in
  match dests with
  | [] => Some (flags, skipn n cs)
  | dest :: dests' =>
      match skipn n cs with
      | [] => None
      | c :: cs2 =>
          match interleaved predicate kv dests' cs2 with
          | Some (l2, rest) => Some (flags ++ [VTuple [VStr dest; VStr c]] ++ l2, rest)
          | None => None
          end
      end
  end.

(** A parser each of whose successes has consumed exactly one token. *)
Definition consumes_one_token (p : Parser) : Prop :=
  forall cs parsed,
    parse p cs = Return parsed ->
    Forall (fun r => exists c, cs = c :: snd r) parsed.

(** ** monad.py : the Monad interface, do, and the small monads *)

Module Monad.

(** What [it.send(y)] gives for a generator of monadic values [MA]. *)
Inductive sent (MA : Type) : Type :=
| Yield (z : MA) (it2 : value -> sent MA)
| StopIteration
| Raises (e : exn).
Arguments Yield {MA} z it2.
Arguments StopIteration {MA}.
Arguments Raises {MA} e.

(** [class Monad] : the two abstract class methods.  Both run Python code
    and may raise. *)
Class Monad (MA : Type) : Type := {
  bind : MA -> (value -> py MA) -> py MA;
  ret : value -> py MA
}.

(** The inner [f(y, it)] of [Monad.do], after [it.send(y)] has been made. *)
Fixpoint do_f {MA : Type} {cls : Monad MA} (y : value) (s : sent MA) : py MA :=
  match s with
  | StopIteration =>
      if is_None y
      then Raise (RuntimeError "Cannot use an empty iterator with do.")
      else ret y
  | Raises e => Raise e
  | Yield z it2 => bind z (fun y' => do_f y' (it2 y'))
  end.

(** [Monad.do] *)
Definition do {MA : Type} {cls : Monad MA} (generator : value -> sent MA) : py MA :=
  do_f VNone (generator VNone).

(** [class Option(BaseMonad)] : a value or [None]; [ret] is the identity. *)
#[export] Instance Option : Monad value := {
  bind x f := if is_None x then Return VNone else f x;
  ret x := Return x
}.

(** [class Result(BaseMonad)] : a value or an exception object. *)
Inductive result : Type :=
| Plain (x : value)
| Exception (e : exn).

#[export] Instance Result : Monad result := {
  bind x f := match x with
              | Exception _ => Return x
              | Plain a => f a
              end;
  ret x := Return (Plain x)
}.

(** [class List(BaseMonad)] *)
#[export] Instance List : Monad (list value) := {
  bind x f := yield_from_each f x;
  ret x := Return [x]
}.

End Monad.

(** [class Parser] of parser.py as a [Monad]: [Parser.bind] and [Parser.ret]
    build a parser and run nothing. *)
#[export] Instance Parser_Monad : Monad.Monad Parser := {
  Monad.bind p f := Return (bind p f);
  Monad.ret x := Return (ret x)
}.

(** A generator of parsers, seen through the interface. *)
Fixpoint of_parser_sent (s : sent) : Monad.sent Parser :=
  match s with
  | Yield z it2 => Monad.Yield z (fun y => of_parser_sent (it2 y))
  | StopIteration => Monad.StopIteration
  | Raises e => Monad.Raises e
  end.

(** Two parsers that cannot be told apart by running them. *)
Definition same_parses (p q : Parser) : Prop :=
  forall cs, parse p cs = parse q cs.

(** A result in [py] up to a relation on what is returned. *)
Inductive py_rel {A : Type} (R : A -> A -> Prop) : py A -> py A -> Prop :=
| py_rel_Return (a b : A) : R a b -> py_rel R (Return a) (Return b)
| py_rel_Raise (e : exn) : py_rel R (Raise e) (Raise e).

(** * Properties *)

(** ** Reasoning helpers *)

Lemma py_bind_Return {A B : Type} (m : py A) (k : A -> py B) (b : B) :
  py_bind m k = Return b -> exists a, m = Return a /\ k a = Return b.
Proof.
  destruct m as [a|e]; simpl; intros H; [exists a; auto | discriminate].
Qed.

(** A [py_bind] that returns: both of its stages returned. *)
Tactic Notation "returned" hyp(H) "as" ident(a) ident(Ha) :=
  apply py_bind_Return in H as (a & Ha & H).

Lemma yield_from_each_ext {A B : Type} (g g' : A -> py (list B)) (l : list A) :
  (forall x, g x = g' x) -> yield_from_each g l = yield_from_each g' l.
Proof.
  intros Hext; induction l as [|x l IH]; simpl; [reflexivity|].
  now rewrite Hext, IH.
Qed.

(** What [p | q] computes, in one equation. *)
Lemma parse_or (p q : Parser) (cs : StrList) :
  parse (p <|> q) cs =
  (l1 <- parse p cs ;; l2 <- parse q cs ;; Return (firstn 1 (l1 ++ l2))).
Proof.
  unfold or_, add, parse; simpl.
  destruct (f p cs) as [l1|e]; simpl; [|reflexivity].
  destruct (f q cs) as [l2|e]; simpl; [|reflexivity].
  destruct (l1 ++ l2); reflexivity.
Qed.

Lemma parse_or_zero_r (p : Parser) (cs : StrList) :
  parse (p <|> zero) cs = (l <- parse p cs ;; Return (firstn 1 l)).
Proof.
  rewrite parse_or. destruct (parse p cs) as [l|e]; simpl; [|reflexivity].
  now rewrite app_nil_r.
Qed.

Lemma parse_or_zero_l (p : Parser) (cs : StrList) :
  parse (zero <|> p) cs = (l <- parse p cs ;; Return (firstn 1 l)).
Proof.
  rewrite parse_or. simpl. destruct (parse p cs) as [l|e]; reflexivity.
Qed.

Lemma parse_bind (p : Parser) (k : value -> py Parser) (cs : StrList) :
  parse (bind p k) cs =
  (parsed <- parse p cs ;;
   yield_from_each (fun '(a, _cs) => f1 <- k a ;; parse f1 _cs) parsed).
Proof. reflexivity. Qed.

(** [Sat] on any stream. *)
Lemma parse_Sat (predicate : value -> bool) (cs : StrList) :
  parse (Sat predicate) cs =
  match cs with
  | [] => Return []
  | c :: cs' => if predicate (VStr c) then Return [(VStr c, cs')] else Return []
  end.
Proof.
  destruct cs as [|c cs']; [reflexivity|].
  unfold Sat, parse; simpl. unfold send, Sat_g.
  destruct (predicate (VStr c)); reflexivity.
Qed.

(** [Flag] on any stream. *)
Lemma parse_Flag (long : string) (short dest : option string) (b : bool)
    (cs : StrList) :
  parse (Flag long short dest b) cs =
  match cs with
  | [] => Return []
  | c :: cs' =>
      if flag_predicate long short (VStr c)
      then Return [(VTuple [VStr (dest_or dest long); VBool b], cs')]
      else Return []
  end.
Proof.
  unfold Flag, DoParser, do, Flag_g.
  cbn [parse f py_bind do_f send].
  rewrite parse_bind, parse_Sat.
  destruct cs as [|c cs']; [reflexivity|].
  destruct (flag_predicate long short (VStr c)); reflexivity.
Qed.

(** [Option] once the flag token has matched and a value token follows. *)
Lemma parse_Option_matched (long : string) (short : option string)
    (convert : option (value -> py value)) (dest : option string)
    (tok raw : string) (rest : StrList) :
  flag_predicate long short (VStr tok) = true ->
  parse (Option long short convert dest) (tok :: raw :: rest) =
  match (match convert with
         | None => Return (VStr raw)
         | Some conv => conv (VStr raw)
         end) with
  | Return v => Return [(VTuple [VStr (dest_or dest long); v], rest)]
  | Raise _ => Return []
  end.
Proof.
  intros Hpred.
  unfold Option, DoParser, do, Option_g.
  cbn [parse f py_bind do_f send].
  rewrite parse_bind, parse_Sat, Hpred; simpl. unfold send.
  destruct convert as [conv|]; simpl.
  - destruct (conv (VStr raw)) as [v|e]; reflexivity.
  - reflexivity.
Qed.

(** ** The top-level entry point *)

(** C1: on malformed input (a missing argument, an unexpected token, a
    conversion error) the parser fails, and [parse_args] then does not return
    a failure outcome: its destructuring of the empty list of successes raises
    [ValueError]. *)
Theorem parse_args_raises_on_failed_parse :
  let unpack := ValueError "not enough values to unpack (expected at least 1, got 0)" in
  parse (Flag "verbose" None None true) [] = Return []
  /\ parse_args (Flag "verbose" None None true) [] = Raise unpack
  /\ parse_args (Flag "verbose" None None true) ["--oops"] = Raise unpack
  /\ parse_args (Option "num" (Some "n") (Some convert_int) None) ["--num"; "x"]
     = Raise unpack.
Proof. repeat split. Qed.

(** C10: when the parser yields at least one success, [parse_args] returns the
    value of the first one, whatever its remainder is: the unconsumed tail is
    dropped without a report. *)
Theorem parse_args_first_value_ignores_remainder
    (p : Parser) (cs : StrList) (a : value) (remainder : StrList) (others : Parses)
    (Hparse : parse p cs = Return ((a, remainder) :: others)) :
  parse_args p cs = Return a.
Proof.
  unfold parse_args. now rewrite Hparse.
Qed.

Lemma parse_args_first_value_ignores_remainder_witness :
  parse (Flag "verbose" None None true) ["--verbose"; "left"; "over"]
  = Return [(VTuple [VStr "verbose"; VBool true], ["left"; "over"])]
  /\ parse_args (Flag "verbose" None None true) ["--verbose"; "left"; "over"]
     = Return (VTuple [VStr "verbose"; VBool true]).
Proof.
  split; [reflexivity|].
  apply (parse_args_first_value_ignores_remainder
           (Flag "verbose" None None true) ["--verbose"; "left"; "over"]
           (VTuple [VStr "verbose"; VBool true]) ["left"; "over"] []).
  reflexivity.
Defined.

(** ** Alternation *)

(** C4: whatever [p] and [q] are, a run of [p | q] that returns carries at
    most one success. *)
Theorem or_yields_at_most_one
    (p q : Parser) (cs : StrList) (parsed : Parses)
    (Hrun : parse (p <|> q) cs = Return parsed) :
  List.length parsed <= 1.
Proof.
  rewrite parse_or in Hrun.
  apply py_bind_Return in Hrun as (l1 & _ & Hrun).
  apply py_bind_Return in Hrun as (l2 & _ & Hrun).
  injection Hrun as <-.
  destruct (l1 ++ l2); simpl; lia.
Qed.

Lemma or_yields_at_most_one_witness :
  List.length [(VStr "a", ["b"])] <= 1.
Proof.
  apply (or_yields_at_most_one (add Item Item) Item ["a"; "b"] [(VStr "a", ["b"])]).
  reflexivity.
Defined.

(** C3: where both sides of [|] succeed, the alternation succeeds with the
    left side's first success and [parse_args] returns the left binding; in
    particular [ret(1) | ret(2)] yields 1 on every token list.  The same holds
    for the merge of two successful [Result]s. *)
Theorem or_left_wins
    (p q : Parser) (cs : StrList) (x y : value * StrList) (xs ys : Parses)
    (Hp : parse p cs = Return (x :: xs))
    (Hq : parse q cs = Return (y :: ys)) :
  parse (p <|> q) cs = Return [x]
  /\ parse_args (p <|> q) cs = Return (fst x)
  /\ (forall tokens, parse_args (ret (VInt 1) <|> ret (VInt 2)) tokens = Return (VInt 1))
  /\ (forall (B : Type) (a b : B),
        Result.or_ (Result.return_ a) (Result.return_ b) = Result.return_ a).
Proof.
  assert (Hor : parse (p <|> q) cs = Return [x]).
  { rewrite parse_or, Hp, Hq. reflexivity. }
  repeat split; auto.
  unfold parse_args. rewrite Hor. destruct x; reflexivity.
Qed.

Lemma or_left_wins_witness :
  parse (Argument "x" <|> Flag "verbose" None None true) ["--verbose"]
  = Return [(VTuple [VStr "x"; VStr "--verbose"], [])]
  /\ parse_args (Argument "x" <|> Flag "verbose" None None true) ["--verbose"]
     = Return (VTuple [VStr "x"; VStr "--verbose"]).
Proof.
  destruct (or_left_wins (Argument "x") (Flag "verbose" None None true)
              ["--verbose"]
              (VTuple [VStr "x"; VStr "--verbose"], [])
              (VTuple [VStr "verbose"; VBool true], []) [] []
              eq_refl eq_refl) as (H1 & H2 & _).
  split; [exact H1 | exact H2].
Defined.

(** C6: [p | zero()] and [zero() | p] have the outcome of [p] on every input:
    the same exception when [p] raises, else the same best success or the same
    failure.  On the list of successes the alternation keeps the first entry
    of [p]'s list and nothing else, and [parse_args] cannot tell the three
    parsers apart. *)
Theorem or_zero_identity (p : Parser) :
  outcome_equiv (p <|> zero) p
  /\ outcome_equiv (zero <|> p) p
  /\ (forall cs, parse (p <|> zero) cs = (l <- parse p cs ;; Return (firstn 1 l)))
  /\ (forall cs, parse (zero <|> p) cs = (l <- parse p cs ;; Return (firstn 1 l)))
  /\ (forall cs, parse_args (p <|> zero) cs = parse_args p cs)
  /\ (forall cs, parse_args (zero <|> p) cs = parse_args p cs).
Proof.
  repeat split; intros cs; unfold outcome, parse_args;
    rewrite ?parse_or_zero_r, ?parse_or_zero_l;
    destruct (parse p cs) as [[|r l]|e]; reflexivity.
Qed.

(** ** The merge of two Results *)

(** C2 (as the code has it): the merge is associative, and two failures merge
    to the left one, unchanged; so a chain of alternatives that all fail
    reports the failure of the first alternative. *)
Theorem Result_add_assoc_first_failure_wins (B : Type) :
  (forall a b c : Result.Result B,
      Result.add (Result.add a b) c = Result.add a (Result.add b c))
  /\ (forall e1 e2 : Result.Exception,
        Result.add (Result.failure e1) (Result.failure e2)
        = (Result.failure e1 : Result.Result B))
  /\ (forall (e : Result.Exception) (es : list Result.Exception),
        Result.chain (Result.failure e) (map Result.failure es)
        = (Result.failure e : Result.Result B)).
Proof.
  split; [|split].
  - intros [[a|ea]] [[b|eb]] [[c|ec]]; reflexivity.
  - reflexivity.
  - intros e es. unfold Result.chain.
    induction es as [|e' es IH]; simpl; [reflexivity | exact IH].
Qed.

(** C2 as stated fails: swapping two failing alternatives changes the merged
    failure, and a generic missing-argument error on the left is kept over a
    literal-token mismatch on the right. *)
Lemma Result_failure_merge_depends_on_order :
  let missing : Result.Result value := Result.failure (Result.MissingError "--debug") in
  let mismatch : Result.Result value :=
    Result.failure (Result.UnequalError "--verbose" "--debug") in
  Result.or_ missing mismatch = missing
  /\ Result.or_ mismatch missing = mismatch
  /\ Result.or_ missing mismatch <> Result.or_ mismatch missing.
Proof.
  repeat split. discriminate.
Qed.

(** ** Flag *)

(** C8 (as the code has it): a [Flag] with a long and a short name succeeds
    exactly when the next token is [-short] or [--long]; it then consumes that
    one token and binds [value] ([True] unless given) to [dest or long].  On
    any other token and on the empty stream it fails. *)
Theorem Flag_matches_long_or_short
    (long short : string) (dest : option string) (b : bool) (cs : StrList) :
  parse (Flag long (Some short) dest b) cs =
  match cs with
  | [] => Return []
  | c :: cs' =>
      if String.eqb c ("-" ++ short)%string || String.eqb c ("--" ++ long)%string
      then Return [(VTuple [VStr (dest_or dest long); VBool b], cs')]
      else Return []
  end.
Proof.
  rewrite parse_Flag. reflexivity.
Qed.

(** C8 as stated fails: the accepted spellings do not depend on the length of
    the name.  [Flag("verbose", "v")] accepts [-v], which is not the spelling
    of its name, and [Flag("v")] rejects [-v] and accepts [--v]. *)
Lemma Flag_spelling_not_by_name_length :
  spec_flag_spelling "verbose" = "--verbose"
  /\ parse (Flag "verbose" (Some "v") None true) ["-v"]
     = Return [(VTuple [VStr "verbose"; VBool true], [])]
  /\ spec_flag_spelling "v" = "-v"
  /\ parse (Flag "v" None None true) ["-v"] = Return []
  /\ parse (Flag "v" None None true) ["--v"]
     = Return [(VTuple [VStr "v"; VBool true], [])].
Proof. repeat split. Qed.

(** ** Option *)

(** C9 (as the code has it): when the flag token matches and the converter
    raises on the value token, [Option] fails the ordinary way, with the empty
    list of successes that [zero()] gives; the exception does not escape. *)
Theorem Option_conversion_error_is_zero
    (long : string) (short dest : option string) (conv : value -> py value)
    (tok raw : string) (rest : StrList) (e : exn)
    (Hflag : flag_predicate long short (VStr tok) = true)
    (Hraise : conv (VStr raw) = Raise e) :
  parse (Option long short (Some conv) dest) (tok :: raw :: rest) = Return []
  /\ parse (Option long short (Some conv) dest) (tok :: raw :: rest)
     = parse zero (tok :: raw :: rest).
Proof.
  rewrite (parse_Option_matched long short (Some conv) dest tok raw rest Hflag).
  rewrite Hraise. split; reflexivity.
Qed.

Lemma Option_conversion_error_is_zero_witness :
  parse (Option "num" (Some "n") (Some convert_int) None) ["--num"; "x"; "rest"]
  = Return [].
Proof.
  apply (Option_conversion_error_is_zero "num" (Some "n") None convert_int
           "--num" "x" ["rest"]
           (ValueError "invalid literal for int() with base 10: 'x'")).
  - reflexivity.
  - reflexivity.
Defined.

(** C9 as stated fails: the failure carries no error.  Two different raw
    values on which the converter raises give the same outcome, so neither the
    raw value nor the reason can be read back from it. *)
Lemma Option_failure_carries_no_error :
  parse (Option "num" (Some "n") (Some convert_int) None) ["--num"; "x"]
  = parse (Option "num" (Some "n") (Some convert_int) None) ["--num"; "y"]
  /\ ~ (exists carried : py Parses -> string,
          forall raw e,
            convert_int (VStr raw) = Raise e ->
            carried (parse (Option "num" (Some "n") (Some convert_int) None)
                       ["--num"; raw]) = raw).
Proof.
  split; [reflexivity|].
  intros [carried Hc].
  pose proof (Hc "x" _ eq_refl) as Hx.
  pose proof (Hc "y" _ eq_refl) as Hy.
  change (carried (Return []) = "x") in Hx.
  change (carried (Return []) = "y") in Hy.
  rewrite Hx in Hy. discriminate.
Qed.

(** ** Repetition *)

Lemma yield_from_each_mono {A B : Type} (g g' : A -> py (list B)) (l : list A)
    (r : list B) :
  (forall x ys, g x = Return ys -> g' x = Return ys) ->
  yield_from_each g l = Return r -> yield_from_each g' l = Return r.
Proof.
  intros Hmono; revert r; induction l as [|x l IH]; simpl; intros r Hr; [exact Hr|].
  returned Hr as ys Hys. returned Hr as zs Hzs.
  rewrite (Hmono _ _ Hys), (IH _ Hzs). exact Hr.
Qed.

(** [many1] with one more level of recursion allowed, unfolded through [do]. *)
Lemma parse_many1_S (d : nat) (p : Parser) (cs : StrList) :
  parse (many1 (S d) p) cs =
  (parsed <- parse p cs ;; yield_from_each (many1_round (many d p)) parsed).
Proof.
  cbn [many1 parse f]. fold (many d p).
  unfold do, many1_g. cbn [send do_f py_bind].
  rewrite parse_bind.
  destruct (parse p cs) as [parsed|e]; [|reflexivity].
  cbn [py_bind]. apply yield_from_each_ext. intros [a _cs].
  unfold many1_round, send.
  destruct (isinstance_tuple a); [|reflexivity].
  cbn [do_f py_bind]. rewrite parse_bind.
  destruct (parse (many d p) _cs) as [parsed2|e]; [|reflexivity].
  cbn [py_bind]. apply yield_from_each_ext. intros [aa cs2].
  unfold send. destruct aa; reflexivity.
Qed.

Lemma parse_many (d : nat) (p : Parser) (cs : StrList) :
  parse (many d p) cs =
  (l1 <- parse (many1 d p) cs ;; Return (firstn 1 (l1 ++ [(VList [], cs)]))).
Proof.
  unfold many. rewrite parse_or. reflexivity.
Qed.

(** Every success of one round carries a list. *)
Lemma many1_round_lists (many : Parser) (r : value * StrList) (ys : Parses) :
  many1_round many r = Return ys ->
  Forall (fun s => isinstance_list (fst s) = true) ys.
Proof.
  destruct r as [a _cs]. unfold many1_round.
  destruct (isinstance_tuple a); [|discriminate].
  destruct (parse many _cs) as [parsed|e]; [|discriminate].
  cbn [py_bind]. revert ys.
  induction parsed as [|[aa cs2] parsed IH]; simpl; intros ys Hys.
  - injection Hys as <-. constructor.
  - returned Hys as y1 Hy1.
    returned Hys as y2 Hy2.
    injection Hys as <-.
    apply Forall_app; split; [|now apply IH].
    destruct aa; try discriminate. injection Hy1 as <-.
    repeat constructor.
Qed.

Lemma many1_lists (d : nat) (p : Parser) (cs : StrList) (l : Parses) :
  parse (many1 d p) cs = Return l ->
  Forall (fun s => isinstance_list (fst s) = true) l.
Proof.
  destruct d as [|d]; [discriminate|].
  rewrite parse_many1_S.
  destruct (parse p cs) as [parsed|e]; [|discriminate].
  cbn [py_bind]. revert l.
  induction parsed as [|r parsed IH]; simpl; intros l Hl.
  - injection Hl as <-. constructor.
  - returned Hl as y1 Hy1.
    returned Hl as y2 Hy2.
    injection Hl as <-.
    apply Forall_app; split; [|now apply IH].
    eapply many1_round_lists; eauto.
Qed.

(** A run of [many] that returns has exactly one success, and it carries a
    list. *)
Lemma many_shape (d : nat) (p : Parser) (cs : StrList) (l : Parses) :
  parse (many d p) cs = Return l ->
  exists xs cs', l = [(VList xs, cs')].
Proof.
  rewrite parse_many. intros Hl.
  returned Hl as l1 Hl1. injection Hl as <-.
  destruct l1 as [|[v cs1] l1]; simpl.
  - now exists [], cs.
  - apply many1_lists in Hl1. inversion Hl1 as [|? ? Hv _]; subst.
    destruct v; try discriminate. now eexists _, _.
Qed.

(** One round never returns the empty list. *)
Lemma many1_round_nonempty (d : nat) (p : Parser) (r : value * StrList) :
  many1_round (many d p) r <> Return [].
Proof.
  destruct r as [a _cs]. unfold many1_round.
  destruct (isinstance_tuple a); [|discriminate].
  destruct (parse (many d p) _cs) as [parsed|e] eqn:Hm; [|discriminate].
  apply many_shape in Hm as (xs & cs' & ->). discriminate.
Qed.

(** A budget that was enough stays enough. *)
Lemma many1_depth_S (d : nat) (p : Parser) :
  forall cs l, parse (many1 d p) cs = Return l -> parse (many1 (S d) p) cs = Return l.
Proof.
  induction d as [|d IH]; intros cs l Hl; [discriminate|].
  rewrite parse_many1_S in Hl. rewrite parse_many1_S.
  destruct (parse p cs) as [parsed|e]; [|discriminate].
  cbn [py_bind] in *.
  eapply yield_from_each_mono; [|exact Hl].
  intros [a _cs] ys. unfold many1_round.
  destruct (isinstance_tuple a); [|discriminate].
  rewrite !parse_many.
  destruct (parse (many1 d p) _cs) as [l1|e] eqn:Hl1; [|discriminate].
  now rewrite (IH _ _ Hl1).
Qed.

Lemma many_depth_le (p : Parser) (d d' : nat) (cs : StrList) (l : Parses) :
  d <= d' -> parse (many d p) cs = Return l -> parse (many d' p) cs = Return l.
Proof.
  induction 1 as [|d' _ IH]; [auto|].
  intros Hl. specialize (IH Hl). revert IH. rewrite !parse_many.
  destruct (parse (many1 d' p) cs) as [l1|e] eqn:Hl1; [|discriminate].
  now rewrite (many1_depth_S _ _ _ _ Hl1).
Qed.

Lemma yield_from_each_returns {A B : Type} (g : A -> py (list B)) (l : list A) :
  Forall (fun x => exists ys, g x = Return ys) l ->
  exists r, yield_from_each g l = Return r.
Proof.
  induction 1 as [|x l (ys & Hys) _ (r & Hr)]; simpl; [now eexists|].
  rewrite Hys, Hr. simpl. now eexists.
Qed.

(** With more budget than tokens, [many1] over a consuming parser returns. *)
Lemma many1_returns (p : Parser) (Hp : consumes_and_binds_tuples p) (d : nat) :
  forall cs, List.length cs < d -> exists l, parse (many1 d p) cs = Return l.
Proof.
  induction d as [|d IH]; intros cs Hlen; [lia|].
  rewrite parse_many1_S.
  destruct (Hp cs) as (parsed & -> & Hall). cbn [py_bind].
  apply yield_from_each_returns.
  eapply Forall_impl; [|exact Hall].
  intros [a cs1] [Ha Hcs1]. cbn [fst snd] in Ha, Hcs1.
  unfold many1_round. rewrite Ha.
  destruct (IH cs1 ltac:(lia)) as (l1 & Hl1).
  destruct (parse (many d p) cs1) as [m|e] eqn:Hm.
  - apply many_shape in Hm as (xs & cs' & ->). simpl. now eexists.
  - rewrite parse_many, Hl1 in Hm. discriminate.
Qed.

Lemma Flag_consumes_and_binds_tuples
    (long : string) (short dest : option string) (b : bool) :
  consumes_and_binds_tuples (Flag long short dest b).
Proof.
  intros cs. rewrite parse_Flag.
  destruct cs as [|c cs']; [now eexists; split; [reflexivity|constructor]|].
  destruct (flag_predicate long short (VStr c)); eexists; split;
    try reflexivity; repeat constructor.
Qed.

Lemma many_of_ret_exhausts_depth (v : list value) (depth : nat) (cs : StrList) :
  parse (many depth (ret (VTuple v))) cs = Raise RecursionError.
Proof.
  induction depth as [|d IH]; rewrite parse_many; [reflexivity|].
  rewrite parse_many1_S. cbn [parse ret f py_bind yield_from_each many1_round isinstance_tuple].
  now rewrite IH.
Qed.

(** C5 (as the code has it): for a parser [p] that never raises and whose
    successes each bind a tuple and consume at least one token, [many(p)]
    returns on every token list, given a budget of nested [many1] rounds
    larger than the number of tokens, and what it returns is one success
    carrying a list, the same one for every such budget.  For every parser
    [p], with no condition on it: when [p] matches zero times the success of
    [many(p)] carries the empty list and the whole input, and [many1(p)]
    fails exactly when the first application of [p] fails. *)
Theorem many_total_on_consuming_parsers (p : Parser) (cs : StrList) :
  (consumes_and_binds_tuples p ->
   exists xs cs', forall depth,
     List.length cs < depth ->
     parse (many depth p) cs = Return [(VList xs, cs')])
  /\ (parse p cs = Return [] ->
      forall depth, 0 < depth -> parse (many depth p) cs = Return [(VList [], cs)])
  /\ (forall depth, 0 < depth ->
        (parse (many1 depth p) cs = Return [] <-> parse p cs = Return [])).
Proof.
  split; [|split].
  - intros Hp.
    destruct (many1_returns p Hp (S (List.length cs)) cs ltac:(lia)) as (l1 & Hl1).
    assert (Hm : exists l, parse (many (S (List.length cs)) p) cs = Return l).
    { rewrite parse_many, Hl1. now eexists. }
    destruct Hm as (l & Hm).
    destruct (many_shape _ _ _ _ Hm) as (xs & cs' & ->).
    exists xs, cs'. intros depth Hdepth.
    apply (many_depth_le p (S (List.length cs)) depth); [lia | exact Hm].
  - intros Hzero [|d] Hd; [lia|].
    rewrite parse_many, parse_many1_S, Hzero. reflexivity.
  - intros [|d] Hd; [lia|]. rewrite parse_many1_S. split.
    + destruct (parse p cs) as [[|r parsed]|e]; [reflexivity| |discriminate].
      cbn [py_bind yield_from_each]. intros H.
      returned H as ys Hys.
      apply py_bind_Return in H as (zs & _ & H).
      injection H as H. apply app_eq_nil in H as [-> _].
      now apply many1_round_nonempty in Hys.
    + intros ->. reflexivity.
Qed.

Lemma many_total_on_consuming_parsers_witness :
  (exists xs cs', forall depth,
      2 < depth ->
      parse (many depth (Flag "verbose" (Some "v") None true)) ["-v"; "--verbose"]
      = Return [(VList xs, cs')])
  /\ parse (many 1 Item) [] = Return [(VList [], [])]
  /\ parse (many1 1 (ret (VTuple []))) ["a"] <> Return [].
Proof.
  split; [|split].
  - apply (proj1 (many_total_on_consuming_parsers
                    (Flag "verbose" (Some "v") None true) ["-v"; "--verbose"])).
    apply Flag_consumes_and_binds_tuples.
  - apply (proj1 (proj2 (many_total_on_consuming_parsers Item []))).
    + reflexivity.
    + lia.
  - intros H.
    apply (proj2 (proj2 (many_total_on_consuming_parsers (ret (VTuple [])) ["a"])) 1) in H.
    + discriminate H.
    + lia.
Defined.

(** C5 as stated fails: [many(p)] does not return a success for every [p].
    Over a parser that succeeds without consuming a token the recursion never
    ends, whatever the budget; over a parser whose value is not a tuple the
    assertion in [many1] fails. *)
Lemma many_is_not_total :
  ~ (forall (p : Parser) (cs : StrList),
        exists depth l, parse (many depth p) cs = Return l)
  /\ (forall depth,
        parse (many depth (ret (VTuple [VStr "v"; VBool true]))) []
        = Raise RecursionError)
  /\ (forall depth, parse (many (S depth) Item) ["a"] = Raise AssertionError).
Proof.
  split; [|split].
  - intros Htotal.
    destruct (Htotal (ret (VTuple [VStr "v"; VBool true])) []) as (depth & l & Hl).
    rewrite many_of_ret_exhausts_depth in Hl. discriminate.
  - intros depth. apply many_of_ret_exhausts_depth.
  - intros depth. rewrite parse_many, parse_many1_S. reflexivity.
Qed.

(** ** Nonpositional composition *)

Section NonpositionalFlags.

Variable Done : Parser.
Hypothesis Done_at_end : parse Done [] = Return [(VList [], [])].

(** C7: [nonpositional(Flag("verbose"), Flag("debug"))] succeeds on
    [--debug --verbose] and on [--verbose --debug]; each time the output list
    holds the two bindings verbose = True and debug = True, in the order in
    which the flags stand in the input, and nothing is left of the input. *)
Theorem nonpositional_two_flags_any_order :
  let verbose := VTuple [VStr "verbose"; VBool true] in
  let debug := VTuple [VStr "debug"; VBool true] in
  let p := nonpositional Done [FlagSeq "verbose"; FlagSeq "debug"] in
  parse p ["--debug"; "--verbose"] = Return [(VList [debug; verbose], [])]
  /\ parse p ["--verbose"; "--debug"] = Return [(VList [verbose; debug], [])]
  /\ parse_args p ["--debug"; "--verbose"] = Return (VList [debug; verbose])
  /\ parse_args p ["--verbose"; "--debug"] = Return (VList [verbose; debug]).
Proof.
  assert (H1 : parse (nonpositional Done [FlagSeq "verbose"; FlagSeq "debug"])
                 ["--debug"; "--verbose"]
               = Return [(VList [VTuple [VStr "debug"; VBool true];
                                 VTuple [VStr "verbose"; VBool true]], [])]).
  { cbn. repeat (rewrite Done_at_end; cbn). reflexivity. }
  assert (H2 : parse (nonpositional Done [FlagSeq "verbose"; FlagSeq "debug"])
                 ["--verbose"; "--debug"]
               = Return [(VList [VTuple [VStr "verbose"; VBool true];
                                 VTuple [VStr "debug"; VBool true]], [])]).
  { cbn. repeat (rewrite Done_at_end; cbn). reflexivity. }
  cbv zeta. unfold parse_args. rewrite H1, H2. repeat split.
Qed.

End NonpositionalFlags.

Lemma nonpositional_two_flags_any_order_witness :
  parse (nonpositional done [FlagSeq "verbose"; FlagSeq "debug"]) ["--debug"; "--verbose"]
  = Return [(VList [VTuple [VStr "debug"; VBool true];
                    VTuple [VStr "verbose"; VBool true]], [])]
  /\ parse (nonpositional done [FlagSeq "verbose"; FlagSeq "debug"]) ["--verbose"; "--debug"]
     = Return [(VList [VTuple [VStr "verbose"; VBool true];
                       VTuple [VStr "debug"; VBool true]], [])].
Proof.
  destruct (nonpositional_two_flags_any_order done eq_refl) as (H1 & H2 & _).
  split; [exact H1 | exact H2].
Defined.

(** * Further properties of the combinators *)

(** ** The algebra of [+] and [|] *)

(** [+] is a monoid on what parsers return: [zero()] is neutral on both
    sides and the operator is associative, exceptions included. *)
Theorem add_monoid (p q r : Parser) (cs : StrList) :
  parse (add zero p) cs = parse p cs
  /\ parse (add p zero) cs = parse p cs
  /\ parse (add (add p q) r) cs = parse (add p (add q r)) cs.
Proof.
  unfold add, parse; cbn [f zero py_bind].
  destruct (f p cs) as [l1|e]; cbn [py_bind]; [|repeat split].
  split; [reflexivity|]. split; [now rewrite app_nil_r|].
  destruct (f q cs) as [l2|e]; cbn [py_bind]; [|reflexivity].
  destruct (f r cs) as [l3|e]; cbn [py_bind]; [|reflexivity].
  now rewrite app_assoc.
Qed.

Lemma firstn_1_app {A : Type} (l1 l2 : list A) :
  firstn 1 (firstn 1 l1 ++ l2) = firstn 1 (l1 ++ l2).
Proof. destruct l1; reflexivity. Qed.

Lemma firstn_1_app_r {A : Type} (l1 l2 : list A) :
  firstn 1 (l1 ++ firstn 1 l2) = firstn 1 (l1 ++ l2).
Proof. destruct l1; [simpl; destruct l2|]; reflexivity. Qed.

(** [|] is associative on what parsers return: both groupings run the three
    parsers in the same order and keep the first success of the three
    lists. *)
Theorem or_assoc (p q r : Parser) (cs : StrList) :
  parse ((p <|> q) <|> r) cs = parse (p <|> (q <|> r)) cs
  /\ parse ((p <|> q) <|> r) cs
     = (l1 <- parse p cs ;; l2 <- parse q cs ;; l3 <- parse r cs ;;
        Return (firstn 1 (l1 ++ l2 ++ l3))).
Proof.
  rewrite !parse_or.
  destruct (parse p cs) as [l1|e]; cbn [py_bind]; [|split; reflexivity].
  destruct (parse q cs) as [l2|e]; cbn [py_bind]; [|split; reflexivity].
  destruct (parse r cs) as [l3|e]; cbn [py_bind]; [|split; reflexivity].
  now rewrite firstn_1_app, firstn_1_app_r, <- app_assoc.
Qed.

(** [p | q] fails exactly when both sides fail; when only the left side
    fails, the alternation is the first success of the right side. *)
Theorem or_fails_iff_both_fail (p q : Parser) (cs : StrList) :
  (parse (p <|> q) cs = Return []
   <-> parse p cs = Return [] /\ parse q cs = Return [])
  /\ (parse p cs = Return [] ->
      parse (p <|> q) cs = (l <- parse q cs ;; Return (firstn 1 l))).
Proof.
  rewrite parse_or. split; [split|].
  - intros H. returned H as l1 Hl1. returned H as l2 Hl2.
    injection H as H.
    destruct l1; [destruct l2; [auto | discriminate] | discriminate].
  - intros [-> ->]. reflexivity.
  - intros ->. reflexivity.
Qed.

(** [|] does not short-circuit: the right side is run even when the left
    side has succeeded, and an exception raised by it escapes. *)
Theorem or_runs_right_side
    (p q : Parser) (cs : StrList) (l : Parses) (e : exn)
    (Hleft : parse p cs = Return l)
    (Hright : parse q cs = Raise e) :
  parse (p <|> q) cs = Raise e /\ parse_args (p <|> q) cs = Raise e.
Proof.
  unfold parse_args. rewrite parse_or, Hleft, Hright. split; reflexivity.
Qed.

Lemma or_runs_right_side_witness :
  parse (Argument "x" <|> many 1 Item) ["a"] = Raise AssertionError
  /\ parse_args (Argument "x" <|> many 1 Item) ["a"] = Raise AssertionError.
Proof.
  apply (or_runs_right_side (Argument "x") (many 1 Item) ["a"]
           [(VTuple [VStr "x"; VStr "a"], [])] AssertionError).
  - reflexivity.
  - reflexivity.
Defined.

(** ** The monad laws of [Parser.bind] *)

Lemma py_bind_app_nil {A : Type} (m : py (list A)) :
  (ys <- m ;; Return (ys ++ [])) = m.
Proof. destruct m; simpl; [now rewrite app_nil_r | reflexivity]. Qed.

Lemma yield_from_each_singletons {A : Type} (l : list A) :
  yield_from_each (fun x => Return [x]) l = Return l.
Proof.
  induction l as [|x l IH]; simpl; [reflexivity | now rewrite IH].
Qed.

Lemma yield_from_each_app {A B : Type} (g : A -> py (list B)) (l1 l2 : list A) :
  yield_from_each g (l1 ++ l2) =
  (a <- yield_from_each g l1 ;; b <- yield_from_each g l2 ;; Return (a ++ b)).
Proof.
  induction l1 as [|x l1 IH]; simpl.
  - destruct (yield_from_each g l2); reflexivity.
  - destruct (g x) as [ys|e]; simpl; [|reflexivity].
    rewrite IH.
    destruct (yield_from_each g l1) as [a|e]; simpl; [|reflexivity].
    destruct (yield_from_each g l2) as [b|e]; simpl; [|reflexivity].
    now rewrite app_assoc.
Qed.

(** Closes an equivalence both of whose sides say that a raised computation
    has returned. *)
Ltac both_raise := first [tauto | split; discriminate].

Lemma yield_from_each_assoc {A B C : Type}
    (g : A -> py (list B)) (h : B -> py (list C)) (l : list A) (r : list C) :
  (l' <- yield_from_each g l ;; yield_from_each h l') = Return r <->
  yield_from_each (fun x => l' <- g x ;; yield_from_each h l') l = Return r.
Proof.
  revert r; induction l as [|x l IH]; intros r; simpl; [tauto|].
  destruct (g x) as [ys|e]; simpl; [|both_raise].
  destruct (yield_from_each g l) as [zs|e] eqn:Hzs; simpl in *.
  - rewrite yield_from_each_app.
    destruct (yield_from_each h ys) as [a|e]; simpl; [|both_raise].
    destruct (yield_from_each h zs) as [b|e] eqn:Hb; simpl.
    + rewrite (proj1 (IH b) eq_refl). simpl. tauto.
    + destruct (yield_from_each (fun x0 => l' <- g x0 ;; yield_from_each h l') l)
        as [b|e'] eqn:Hb'; simpl; [|both_raise].
      pose proof (proj2 (IH b) eq_refl). discriminate.
  - destruct (yield_from_each h ys) as [a|e']; simpl; [|both_raise].
    destruct (yield_from_each (fun x0 => l' <- g x0 ;; yield_from_each h l') l)
        as [b|e'] eqn:Hb'; simpl; [|both_raise].
    pose proof (proj2 (IH b) eq_refl). discriminate.
Qed.

(** [ret] is a left and a right unit of [bind], and a failure of the first
    parser is the failure of the bind: the callback is not run. *)
Theorem bind_units (p : Parser) (k : value -> py Parser) (a : value) (cs : StrList) :
  parse (bind (ret a) k) cs = (f1 <- k a ;; parse f1 cs)
  /\ parse (bind p (fun x => Return (ret x))) cs = parse p cs
  /\ parse (bind zero k) cs = Return []
  /\ (parse p cs = Return [] -> parse (bind p k) cs = Return []).
Proof.
  rewrite !parse_bind. repeat split.
  - cbn [parse ret f py_bind yield_from_each].
    destruct (k a) as [f1|e]; cbn [py_bind]; [|reflexivity].
    apply py_bind_app_nil.
  - destruct (parse p cs) as [parsed|e]; cbn [py_bind]; [|reflexivity].
    rewrite <- (yield_from_each_singletons parsed) at 1.
    apply yield_from_each_ext. now intros [x cs'].
  - intros ->. reflexivity.
Qed.

(** [bind] is associative on the runs that return: nesting the binds to the
    left or to the right gives the same list of successes.  (When a callback
    raises, the two nestings can raise different exceptions, since they run
    the callbacks in different orders.) *)
Theorem bind_assoc
    (p : Parser) (k h : value -> py Parser) (cs : StrList) (r : Parses) :
  parse (bind (bind p k) h) cs = Return r <->
  parse (bind p (fun a => q <- k a ;; Return (bind q h))) cs = Return r.
Proof.
  rewrite !parse_bind.
  destruct (parse p cs) as [parsed|e]; cbn [py_bind]; [|tauto].
  etransitivity; [exact (yield_from_each_assoc _ _ parsed r)|].
  match goal with
  | |- yield_from_each ?g1 _ = _ <-> yield_from_each ?g2 _ = _ =>
      rewrite (yield_from_each_ext g1 g2); [tauto|]
  end.
  intros [x cs']. destruct (k x) as [q|e]; reflexivity.
Qed.

(** ** Primitive and surface parsers *)

(** [Sat(predicate)] consumes exactly the next token when the predicate holds
    of it and fails otherwise, also on the empty stream; [Eq(s)] accepts the
    token [s] and no other. *)
Theorem Sat_Eq_spec (predicate : value -> bool) (s : string) (cs : StrList) :
  parse (Sat predicate) cs
  = match cs with
    | [] => Return []
    | c :: cs' => if predicate (VStr c) then Return [(VStr c, cs')] else Return []
    end
  /\ parse (Eq s) cs
     = match cs with
       | [] => Return []
       | c :: cs' => if String.eqb c s then Return [(VStr c, cs')] else Return []
       end
  /\ (forall r, parse (Eq s) cs = Return [r] <-> exists cs', cs = s :: cs' /\ r = (VStr s, cs')).
Proof.
  unfold Eq. rewrite !parse_Sat. repeat split.
  - destruct cs as [|c cs']; [discriminate|]. cbn [str_eq].
    destruct (String.eqb_spec c s) as [->|Hne]; [|discriminate].
    intros H. injection H as <-. now exists cs'.
  - intros (cs' & -> & ->). cbn [str_eq]. now rewrite String.eqb_refl.
Qed.

(** [Argument(dest)] takes the next token whatever it is, a flag spelling
    included, and binds it to [dest]; it fails on the empty stream and
    nowhere else. *)
Theorem Argument_spec (dest : string) (cs : StrList) :
  parse (Argument dest) cs
  = match cs with
    | [] => Return []
    | c :: cs' => Return [(VTuple [VStr dest; VStr c], cs')]
    end
  /\ (parse (Argument dest) cs = Return [] <-> cs = []).
Proof.
  assert (H : parse (Argument dest) cs
              = match cs with
                | [] => Return []
                | c :: cs' => Return [(VTuple [VStr dest; VStr c], cs')]
                end) by (destruct cs; reflexivity).
  split; [exact H|]. rewrite H.
  destruct cs; split; intros; try reflexivity; discriminate.
Qed.

(** [Option] on every stream: it needs the flag token and one more token.
    It fails when the first token is not one of its two spellings and when
    the flag stands last with no value after it; otherwise it consumes both
    tokens and binds the converted value (the raw token when there is no
    converter) to [dest or long], or fails when the converter raises. *)
Theorem Option_spec
    (long : string) (short : option string)
    (convert : option (value -> py value)) (dest : option string) (cs : StrList) :
  parse (Option long short convert dest) cs
  = match cs with
    | tok :: raw :: rest =>
        if flag_predicate long short (VStr tok) then
          match (match convert with
                 | None => Return (VStr raw)
                 | Some conv => conv (VStr raw)
                 end) with
          | Return v => Return [(VTuple [VStr (dest_or dest long); v], rest)]
          | Raise _ => Return []
          end
        else Return []
    | _ => Return []
    end.
Proof.
  destruct cs as [|tok [|raw rest]].
  - reflexivity.
  - unfold Option, DoParser, do, Option_g. cbn [parse f py_bind do_f send].
    rewrite parse_bind, parse_Sat.
    destruct (flag_predicate long short (VStr tok)); reflexivity.
  - destruct (flag_predicate long short (VStr tok)) eqn:Hflag.
    + now apply parse_Option_matched.
    + unfold Option, DoParser, do, Option_g. cbn [parse f py_bind do_f send].
      rewrite parse_bind, parse_Sat, Hflag. reflexivity.
Qed.

Lemma yield_from_each_map {A B : Type} (h : A -> B) (l : list A) :
  yield_from_each (fun x => Return [h x]) l = Return (map h l).
Proof.
  induction l as [|x l IH]; simpl; [reflexivity | now rewrite IH].
Qed.

(** [p >> q] can always be built, and it runs [q] on the remainder of every
    success of [p]: each pair of successes gives the two-element list
    [[x1, x2]] with the remainder of [q].  The values are paired, not
    concatenated, so a chain of [>>] nests to the left. *)
Theorem rshift_spec (p q : Parser) :
  exists r,
    rshift p q = Return r
    /\ forall cs,
        parse r cs
        = (l1 <- parse p cs ;;
           yield_from_each
             (fun '(x1, cs1) =>
                l2 <- parse q cs1 ;;
                Return (map (fun '(x2, cs2) => (VList [x1; x2], cs2)) l2)) l1).
Proof.
  eexists. split; [reflexivity|]. intros cs.
  rewrite parse_bind.
  destruct (parse p cs) as [l1|e]; cbn [py_bind]; [|reflexivity].
  apply yield_from_each_ext. intros [x1 cs1].
  unfold send. cbn [do_f py_bind]. rewrite parse_bind.
  destruct (parse q cs1) as [l2|e]; cbn [py_bind]; [|reflexivity].
  rewrite <- yield_from_each_map.
  apply yield_from_each_ext. intros [x2 cs2]. reflexivity.
Qed.

(** ** More on repetition *)

(** One round that returns: its value is a tuple, [many] returned one list on
    the remainder, and the round is that list with the value in front. *)
Lemma many1_round_returns (d : nat) (p : Parser) (a : value) (cs1 : StrList)
    (ys : Parses) :
  many1_round (many d p) (a, cs1) = Return ys ->
  exists xs cs2,
    isinstance_tuple a = true
    /\ parse (many d p) cs1 = Return [(VList xs, cs2)]
    /\ ys = [(VList (a :: xs), cs2)].
Proof.
  unfold many1_round.
  destruct (isinstance_tuple a); [|discriminate].
  destruct (parse (many d p) cs1) as [parsed|e] eqn:Hm; [|discriminate].
  destruct (many_shape _ _ _ _ Hm) as (xs & cs2 & ->).
  cbn. intros H. injection H as <-. now exists xs, cs2.
Qed.

Lemma many1_fails_iff (d : nat) (p : Parser) (cs : StrList) :
  parse (many1 (S d) p) cs = Return [] <-> parse p cs = Return [].
Proof.
  rewrite parse_many1_S. split.
  - destruct (parse p cs) as [[|r parsed]|e]; [reflexivity| |discriminate].
    cbn [py_bind yield_from_each]. intros H.
    returned H as ys Hys. returned H as zs Hzs.
    injection H as H. apply app_eq_nil in H as [-> _].
    now apply many1_round_nonempty in Hys.
  - intros ->. reflexivity.
Qed.

Lemma many_remainder (depth : nat) (p : Parser) :
  forall (cs : StrList) (xs : list value) (cs' : StrList),
    parse (many depth p) cs = Return [(VList xs, cs')] ->
    parse p cs' = Return []
    /\ (consumes_one_token p ->
        cs' = skipn (List.length xs) cs /\ List.length xs <= List.length cs).
Proof.
  induction depth as [|d IH]; intros cs xs cs' Hm;
    rewrite parse_many in Hm; [discriminate|].
  returned Hm as l1 Hl1.
  destruct l1 as [|r l1].
  - cbn in Hm. injection Hm as <- <-.
    apply many1_fails_iff in Hl1. split; [exact Hl1|].
    intros _. cbn. split; [reflexivity | lia].
  - cbn in Hm. injection Hm as ->.
    rewrite parse_many1_S in Hl1.
    destruct (parse p cs) as [[|[a cs1] parsed]|e] eqn:Hp; try discriminate.
    cbn [py_bind yield_from_each] in Hl1.
    returned Hl1 as ys Hys. returned Hl1 as zs Hzs.
    apply many1_round_returns in Hys as (xs1 & cs2 & _ & Hrec & ->).
    injection Hl1 as <- <- _.
    destruct (IH _ _ _ Hrec) as [Hfail Hcount]. split; [exact Hfail|].
    intros Hone. destruct (Hcount Hone) as [-> Hle].
    apply Hone in Hp. apply Forall_inv in Hp as [c Hc].
    cbn in Hc. subst cs. cbn. split; [reflexivity | lia].
Qed.

(** Where [many(p)] stops: [p] fails on the remainder it returns, so the
    repetition is as long as it can be; and if every success of [p] consumes
    exactly one token, the list binds one value per consumed token. *)
Theorem many_stops_where_p_fails
    (depth : nat) (p : Parser) (cs : StrList) (xs : list value) (cs' : StrList)
    (Hrun : parse (many depth p) cs = Return [(VList xs, cs')]) :
  parse p cs' = Return []
  /\ (consumes_one_token p ->
      cs' = skipn (List.length xs) cs /\ List.length xs <= List.length cs).
Proof.
  exact (many_remainder depth p cs xs cs' Hrun).
Qed.

Lemma Argument_consumes_one_token (dest : string) :
  consumes_one_token (Argument dest).
Proof.
  intros [|c cs'] parsed H; cbn in H; injection H as <-; repeat constructor.
  now exists c.
Qed.

Lemma many_stops_where_p_fails_witness :
  parse (Argument "a") [] = Return []
  /\ [] = skipn 2 ["x"; "y"] /\ 2 <= 2.
Proof.
  destruct (many_stops_where_p_fails 3 (Argument "a") ["x"; "y"]
              [VTuple [VStr "a"; VStr "x"]; VTuple [VStr "a"; VStr "y"]] []
              eq_refl) as [Hfail Hcount].
  split; [exact Hfail|].
  exact (Hcount (Argument_consumes_one_token "a")).
Defined.

(** [many1(p)] keeps every success of [p]: it returns one success for each
    of them, in the same order, whose list starts with the value [p] bound
    there; so a list from [many1] is never empty. *)
Theorem many1_one_result_per_success
    (depth : nat) (p : Parser) (cs : StrList) (l : Parses)
    (Hrun : parse (many1 depth p) cs = Return l) :
  exists parsed,
    parse p cs = Return parsed
    /\ Forall2 (fun r s => exists xs, fst r = VList (fst s :: xs)
                                      /\ isinstance_tuple (fst s) = true)
               l parsed.
Proof.
  destruct depth as [|d]; [discriminate|].
  rewrite parse_many1_S in Hrun.
  destruct (parse p cs) as [parsed|e]; [|discriminate].
  exists parsed. split; [reflexivity|].
  cbn [py_bind] in Hrun. revert l Hrun.
  induction parsed as [|[a cs1] parsed IH]; intros l Hrun.
  - injection Hrun as <-. constructor.
  - cbn [yield_from_each] in Hrun.
    returned Hrun as ys Hys. returned Hrun as zs Hzs.
    apply many1_round_returns in Hys as (xs & cs2 & Ha & _ & ->).
    injection Hrun as <-. constructor; [|now apply IH].
    now exists xs.
Qed.

Lemma many1_one_result_per_success_witness :
  exists parsed,
    parse (add (Argument "a") (Argument "b")) ["x"] = Return parsed
    /\ Forall2 (fun r s => exists xs, fst r = VList (fst s :: xs)
                                      /\ isinstance_tuple (fst s) = true)
               ([(VList [VTuple [VStr "a"; VStr "x"]], []);
                 (VList [VTuple [VStr "b"; VStr "x"]], [])] : Parses) parsed.
Proof.
  apply (many1_one_result_per_success 2 (add (Argument "a") (Argument "b")) ["x"]).
  reflexivity.
Defined.

Lemma Flag_consumes_one_token
    (long : string) (short dest : option string) (b : bool) :
  consumes_one_token (Flag long short dest b).
Proof.
  intros cs parsed. rewrite parse_Flag.
  destruct cs as [|c cs']; [intros H; injection H as <-; constructor|].
  destruct (flag_predicate long short (VStr c)); intros H; injection H as <-;
    repeat constructor. now exists c.
Qed.

Lemma parse_many_Flag
    (long : string) (short dest : option string) (b : bool) (cs : StrList) :
  let n := leading (flag_predicate long short) cs in
  forall depth,
    n < depth ->
    parse (many depth (Flag long short dest b)) cs
    = Return [(VList (repeat (VTuple [VStr (dest_or dest long); VBool b]) n),
               skipn n cs)].
Proof.
  induction cs as [|c cs' IH]; intros n [|d] Hdepth; try lia;
    rewrite parse_many, parse_many1_S, parse_Flag; [reflexivity|].
  subst n. cbn [leading] in *.
  destruct (flag_predicate long short (VStr c)); [|reflexivity].
  cbn [py_bind yield_from_each many1_round isinstance_tuple].
  rewrite (IH d ltac:(lia)). reflexivity.
Qed.

(** [many(Flag(...))] counts: it consumes the leading run of tokens that
    spell the flag, binds the flag once per token of the run and leaves the
    rest of the input, given one more level of recursion than the run is
    long.  On an input that does not start with the flag it succeeds with the
    empty list. *)
Theorem many_Flag_counts
    (long : string) (short dest : option string) (b : bool) (cs : StrList)
    (depth : nat)
    (Hdepth : leading (flag_predicate long short) cs < depth) :
  parse (many depth (Flag long short dest b)) cs
  = Return [(VList (repeat (VTuple [VStr (dest_or dest long); VBool b])
                           (leading (flag_predicate long short) cs)),
             skipn (leading (flag_predicate long short) cs) cs)].
Proof.
  exact (parse_many_Flag long short dest b cs depth Hdepth).
Qed.

Lemma many_Flag_counts_witness :
  parse (many 3 (Flag "verbose" (Some "v") None true)) ["-v"; "--verbose"; "file"; "-v"]
  = Return [(VList [VTuple [VStr "verbose"; VBool true];
                    VTuple [VStr "verbose"; VBool true]], ["file"; "-v"])].
Proof.
  apply (many_Flag_counts "verbose" (Some "v") None true
           ["-v"; "--verbose"; "file"; "-v"] 3).
  vm_compute. lia.
Defined.

(** ** Interleaving *)

Lemma py_add_not_None (x y v : value) : py_add x y = Return v -> is_None v = false.
Proof.
  destruct x, y; cbn; intros H; try discriminate; injection H as <-; reflexivity.
Qed.

(** What the last statement of [interleave] contributes to a run. *)
Lemma yield_ret_sum_run (l1 l2 : value) (cs : StrList) :
  (f1 <- do_f l2 (yield_ret_sum l1 l2) ;; parse f1 cs)
  = (v <- py_add l1 l2 ;; Return [(v, cs)]).
Proof.
  unfold yield_ret_sum.
  destruct (py_add l1 l2) as [v|e] eqn:Hadd; [|reflexivity].
  cbn. now rewrite (py_add_not_None _ _ _ Hadd).
Qed.

Lemma parse_build_nil (depth : nat) (p : Parser) :
  exists r,
    build depth p [] = Return r
    /\ forall cs,
        parse r cs
        = (parsed <- parse (many depth p) cs ;;
           yield_from_each
             (fun '(xs, cs1) =>
                parsed2 <- parse (many depth p) cs1 ;;
                yield_from_each
                  (fun '(l2, cs2) => v <- py_add xs l2 ;; Return [(v, cs2)])
                  parsed2) parsed).
Proof.
  eexists. split; [reflexivity|]. intros cs.
  rewrite parse_bind.
  destruct (parse (many depth p) cs) as [parsed|e]; cbn [py_bind]; [|reflexivity].
  apply yield_from_each_ext. intros [xs cs1].
  unfold send. cbn [do_f py_bind]. rewrite parse_bind.
  destruct (parse (many depth p) cs1) as [parsed2|e]; cbn [py_bind]; [|reflexivity].
  apply yield_from_each_ext. intros [l2 cs2].
  unfold send. apply yield_ret_sum_run.
Qed.

Lemma build_cons_eq (depth : nat) (p head : Parser) (tail : list Parser) :
  build depth p (head :: tail)
  = Return
      (bind (many depth p) (fun xs =>
         do_f xs
           (Yield head (fun x =>
              match py_add xs (VList [x]) with
              | Raise e => Raises e
              | Return l1 =>
                  match build depth p tail with
                  | Raise e => Raises e
                  | Return rest => Yield rest (fun l2 => yield_ret_sum l1 l2)
                  end
              end)))).
Proof. reflexivity. Qed.

Lemma parse_build_cons (depth : nat) (p head : Parser) (tail : list Parser)
    (r_tail : Parser) :
  build depth p tail = Return r_tail ->
  exists r,
    build depth p (head :: tail) = Return r
    /\ forall cs,
        parse r cs
        = (parsed <- parse (many depth p) cs ;;
           yield_from_each
             (fun '(xs, cs1) =>
                parsed1 <- parse head cs1 ;;
                yield_from_each
                  (fun '(x, cs2) =>
                     l1 <- py_add xs (VList [x]) ;;
                     parsed2 <- parse r_tail cs2 ;;
                     yield_from_each
                       (fun '(l2, cs3) => v <- py_add l1 l2 ;; Return [(v, cs3)])
                       parsed2)
                  parsed1) parsed).
Proof.
  intros Htail. rewrite build_cons_eq.
  eexists. split; [reflexivity|]. intros cs.
  rewrite parse_bind.
  destruct (parse (many depth p) cs) as [parsed|e]; cbn [py_bind]; [|reflexivity].
  apply yield_from_each_ext. intros [xs cs1].
  unfold send. cbn [do_f py_bind]. rewrite parse_bind.
  destruct (parse head cs1) as [parsed1|e]; cbn [py_bind]; [|reflexivity].
  apply yield_from_each_ext. intros [x cs2].
  unfold send.
  destruct (py_add xs (VList [x])) as [l1|e]; cbn [py_bind]; [|reflexivity].
  rewrite Htail. cbn [do_f py_bind]. rewrite parse_bind.
  destruct (parse r_tail cs2) as [parsed2|e]; cbn [py_bind]; [|reflexivity].
  apply yield_from_each_ext. intros [l2 cs3].
  unfold send. apply yield_ret_sum_run.
Qed.

(** With no positional parser, [build] is [many]: the second run of
    [many] starts where the first one stopped and adds nothing. *)
Theorem build_without_positionals (depth : nat) (p : Parser) :
  exists r,
    build depth p [] = Return r
    /\ forall cs, parse r cs = parse (many depth p) cs.
Proof.
  destruct (parse_build_nil depth p) as (r & Hr & Hparse).
  exists r. split; [exact Hr|]. intros cs. rewrite Hparse.
  destruct (parse (many depth p) cs) as [parsed|e] eqn:Hm; [|reflexivity].
  destruct (many_shape _ _ _ _ Hm) as (xs & cs' & ->).
  destruct depth as [|d]; [rewrite parse_many in Hm; discriminate|].
  apply many_remainder in Hm as [Hfail _].
  cbn [py_bind yield_from_each].
  rewrite parse_many, parse_many1_S, Hfail. cbn. now rewrite !app_nil_r.
Qed.

Lemma build_returns (depth : nat) (p : Parser) (positional : list Parser) :
  exists r, build depth p positional = Return r.
Proof.
  destruct positional; eexists; reflexivity.
Qed.

Lemma many_of_failing (depth : nat) (p : Parser) (cs : StrList) :
  0 < depth -> parse p cs = Return [] ->
  parse (many depth p) cs = Return [(VList [], cs)].
Proof.
  intros Hdepth Hfail. destruct depth as [|d]; [lia|].
  now rewrite parse_many, parse_many1_S, Hfail.
Qed.

Lemma parse_build_positionals (depth : nat) (p : Parser) (Hdepth : 0 < depth)
    (dests : list string) :
  forall (cs : StrList) (r : Parser),
    (forall n, parse p (skipn n cs) = Return []) ->
    build depth p (map Argument dests) = Return r ->
    parse r cs
    = if (List.length dests <=? List.length cs)%nat
      then Return [(VList (bind_positionals dests cs), skipn (List.length dests) cs)]
      else Return [].
Proof.
  induction dests as [|dest dests IH]; intros cs r Hnone Hr.
  - destruct (parse_build_nil depth p) as (r' & Hr' & Hparse).
    cbn [map] in Hr. rewrite Hr in Hr'. injection Hr' as <-.
    rewrite Hparse, (many_of_failing depth p cs Hdepth (Hnone 0)).
    cbn [py_bind yield_from_each].
    rewrite (many_of_failing depth p cs Hdepth (Hnone 0)). reflexivity.
  - destruct (build_returns depth p (map Argument dests)) as (r_tail & Htail).
    destruct (parse_build_cons depth p (Argument dest) _ _ Htail)
      as (r' & Hr' & Hparse).
    cbn [map] in Hr. rewrite Hr in Hr'. injection Hr' as <-.
    rewrite Hparse, (many_of_failing depth p cs Hdepth (Hnone 0)).
    cbn [py_bind yield_from_each].
    destruct cs as [|c cs1]; [reflexivity|].
    cbn [parse Argument DoParser f do do_f send Argument_g py_bind bind Item
         yield_from_each ret is_None app py_add].
    rewrite (IH cs1 r_tail (fun n => Hnone (S n)) Htail).
    cbn [List.length Nat.leb].
    destruct (List.length dests <=? List.length cs1)%nat; reflexivity.
Qed.

(** When no token of the input is taken by the repeated parser, [build]
    binds the positional [Argument]s to the tokens in order and leaves what
    follows them; with fewer tokens than positional arguments it fails. *)
Theorem build_positionals_in_order
    (depth : nat) (p : Parser) (dests : list string) (cs : StrList)
    (Hdepth : 0 < depth)
    (Hnone : forall n, parse p (skipn n cs) = Return []) :
  exists r,
    build depth p (map Argument dests) = Return r
    /\ parse r cs
       = if (List.length dests <=? List.length cs)%nat
         then Return [(VList (bind_positionals dests cs),
                       skipn (List.length dests) cs)]
         else Return [].
Proof.
  destruct (build_returns depth p (map Argument dests)) as (r & Hr).
  exists r. split; [exact Hr|].
  exact (parse_build_positionals depth p Hdepth dests cs r Hnone Hr).
Qed.

Lemma build_positionals_in_order_witness :
  exists r,
    build 1 (Flag "verbose" (Some "v") None true) (map Argument ["a"; "b"]) = Return r
    /\ parse r ["first"; "second"; "third"]
       = Return [(VList [VTuple [VStr "a"; VStr "first"];
                         VTuple [VStr "b"; VStr "second"]], ["third"])].
Proof.
  apply (build_positionals_in_order 1 (Flag "verbose" (Some "v") None true)
           ["a"; "b"] ["first"; "second"; "third"]).
  - lia.
  - intros [|[|[|[|n]]]]; reflexivity.
Defined.

Lemma leading_le (predicate : value -> bool) (cs : StrList) :
  leading predicate cs <= List.length cs.
Proof.
  induction cs as [|c cs IH]; cbn; [lia|]. destruct (predicate (VStr c)); cbn; lia.
Qed.

Lemma leading_skipn (predicate : value -> bool) (cs : StrList) :
  leading predicate (skipn (leading predicate cs) cs) = 0.
Proof.
  induction cs as [|c cs IH]; cbn; [reflexivity|].
  destruct (predicate (VStr c)) eqn:Hc; cbn; [exact IH | now rewrite Hc].
Qed.

Lemma parse_build_flag_positionals
    (long : string) (short dest : option string) (b : bool) (depth : nat)
    (dests : list string) :
  forall (cs : StrList) (r : Parser),
    List.length cs < depth ->
    build depth (Flag long short dest b) (map Argument dests) = Return r ->
    parse r cs
    = match interleaved (flag_predicate long short)
              (VTuple [VStr (dest_or dest long); VBool b]) dests cs with
      | Some (l, rest) => Return [(VList l, rest)]
      | None => Return []
      end.
Proof.
  set (pred := flag_predicate long short).
  set (kv := VTuple [VStr (dest_or dest long); VBool b]).
  induction dests as [|d dests IH]; intros cs r Hdepth Hr.
  - destruct (parse_build_nil depth (Flag long short dest b)) as (r' & Hr' & Hparse).
    cbn [map] in Hr. rewrite Hr in Hr'. injection Hr' as <-.
    pose proof (leading_le pred cs) as Hle.
    rewrite Hparse, parse_many_Flag by (fold pred; lia).
    fold pred kv. cbn [py_bind yield_from_each].
    rewrite parse_many_Flag by (fold pred; rewrite leading_skipn; lia).
    fold pred kv. rewrite leading_skipn.
    cbn. now rewrite !app_nil_r.
  - destruct (build_returns depth (Flag long short dest b) (map Argument dests))
      as (r_tail & Htail).
    destruct (parse_build_cons depth (Flag long short dest b) (Argument d) _ _ Htail)
      as (r' & Hr' & Hparse).
    cbn [map] in Hr. rewrite Hr in Hr'. injection Hr' as <-.
    pose proof (leading_le pred cs) as Hle.
    rewrite Hparse, parse_many_Flag by (fold pred; lia).
    fold pred kv. cbn [py_bind yield_from_each interleaved].
    pose proof (length_skipn (leading pred cs) cs) as Hlen.
    destruct (skipn (leading pred cs) cs) as [|c cs2]; [reflexivity|].
    cbn [parse Argument DoParser f do do_f send Argument_g py_bind bind Item
         yield_from_each ret is_None app py_add].
    cbn [List.length] in Hlen.
    rewrite (IH cs2 r_tail ltac:(lia) Htail).
    destruct (interleaved pred kv dests cs2) as [[l2 rest]|]; [|reflexivity].
    cbn. rewrite ?app_nil_r, <- ?app_assoc. reflexivity.
Qed.

(** [build] over a repeated [Flag] and positional [Argument]s: the flag may
    stand any number of times before, between and after the positional
    tokens; every token is bound in the order of the input, the flag tokens
    to the flag and each other token to the next positional argument.  The
    run fails when the tokens run out before the positional arguments do, and
    it stops at the first token after the last positional argument that is
    not the flag. *)
Theorem build_flag_and_positionals
    (long : string) (short dest : option string) (b : bool) (depth : nat)
    (dests : list string) (cs : StrList)
    (Hdepth : List.length cs < depth) :
  exists r,
    build depth (Flag long short dest b) (map Argument dests) = Return r
    /\ parse r cs
       = match interleaved (flag_predicate long short)
                 (VTuple [VStr (dest_or dest long); VBool b]) dests cs with
         | Some (l, rest) => Return [(VList l, rest)]
         | None => Return []
         end.
Proof.
  destruct (build_returns depth (Flag long short dest b) (map Argument dests))
    as (r & Hr).
  exists r. split; [exact Hr|].
  exact (parse_build_flag_positionals long short dest b depth dests cs r Hdepth Hr).
Qed.

Lemma build_flag_and_positionals_witness :
  exists r,
    build 6 (Flag "verbose" (Some "v") None true) (map Argument ["a"; "b"]) = Return r
    /\ parse r ["first"; "--verbose"; "-v"; "second"; "--verbose"]
       = Return [(VList [VTuple [VStr "a"; VStr "first"];
                         VTuple [VStr "verbose"; VBool true];
                         VTuple [VStr "verbose"; VBool true];
                         VTuple [VStr "b"; VStr "second"];
                         VTuple [VStr "verbose"; VBool true]], [])].
Proof.
  apply (build_flag_and_positionals "verbose" (Some "v") None true 6
           ["a"; "b"] ["first"; "--verbose"; "-v"; "second"; "--verbose"]).
  cbn. lia.
Defined.

(** A [Flag] or an [Option] built without a short name still tests the token
    against [f"-{short}"], which is then the text [-None]: it accepts the
    token [-None] as a spelling of the flag, whatever its long name is. *)
Theorem Flag_without_short_accepts_None_text
    (long : string) (dest : option string) (b : bool)
    (convert : option (value -> py value)) (raw : string) (rest : StrList) :
  parse (Flag long None dest b) ("-None" :: rest)
  = Return [(VTuple [VStr (dest_or dest long); VBool b], rest)]
  /\ parse (Option long None None dest) ("-None" :: raw :: rest)
     = Return [(VTuple [VStr (dest_or dest long); VStr raw], rest)].
Proof.
  split.
  - rewrite parse_Flag. reflexivity.
  - now rewrite (parse_Option_matched long None None dest "-None" raw rest eq_refl).
Qed.

(** ** do-notation *)

(** [do] reads a final value [None] as an empty generator: a do-block whose
    last yielded parser binds [None] raises [RuntimeError] when it is run,
    as does building a do-block from a generator that yields nothing. *)
Theorem do_takes_final_None_for_empty
    (p : Parser) (cs cs' : StrList) (others : Parses)
    (Hlast : parse p cs = Return ((VNone, cs') :: others)) :
  parse (DoParser (fun _ => Yield p (fun _ => StopIteration))) cs
  = Raise (RuntimeError "Cannot use an empty iterator with do.")
  /\ do (fun _ => StopIteration)
     = Raise (RuntimeError "Cannot use an empty iterator with do.").
Proof.
  split; [|reflexivity].
  unfold DoParser, do. cbn [parse f send do_f py_bind].
  rewrite parse_bind, Hlast. reflexivity.
Qed.

Lemma do_takes_final_None_for_empty_witness :
  parse (DoParser (fun _ => Yield (ret VNone) (fun _ => StopIteration))) ["a"]
  = Raise (RuntimeError "Cannot use an empty iterator with do.").
Proof.
  apply (do_takes_final_None_for_empty (ret VNone) ["a"] ["a"] []).
  reflexivity.
Defined.

Lemma bind_same_parses (z : Parser) (k1 k2 : value -> py Parser) :
  (forall y, py_rel same_parses (k1 y) (k2 y)) ->
  same_parses (bind z k1) (bind z k2).
Proof.
  intros Hk cs. rewrite !parse_bind.
  destruct (parse z cs) as [parsed|e]; cbn [py_bind]; [|reflexivity].
  apply yield_from_each_ext. intros [a cs1].
  destruct (Hk a) as [f1 f2 Hf|e]; cbn [py_bind]; [apply Hf | reflexivity].
Qed.

(** The [do] of parser.py's generators is [Monad.do] at the [Parser]
    class. *)
Lemma do_is_Monad_do (generator : StatelessIterator) :
  py_rel same_parses
    (Monad.do (fun y => of_parser_sent (generator y))) (do generator).
Proof.
  unfold Monad.do, do, send.
  generalize VNone at 1 3. generalize (generator VNone). intros s.
  induction s as [z it2 IH| |e]; intros y; cbn.
  - constructor. apply bind_same_parses. intros y'. apply IH.
  - destruct (is_None y); constructor. intros cs; reflexivity.
  - constructor.
Qed.

(** ** monad.py : the Option, Result and List monads *)

(** In the [Option] monad a do-block is [None] from the first [None] it
    yields, and the generator is not resumed after it; with no [None] on the
    way it is the last value yielded.  The [Result] monad does the same with
    the first exception object. *)
Theorem Option_Result_do_short_circuit
    (a : value) (b : value -> value) (h : value -> value -> value)
    (e : exn) (k : value -> Monad.sent value) (k' : value -> Monad.sent Monad.result) :
  Monad.do (cls := Monad.Option) (fun _ =>
      Monad.Yield a (fun x =>
        Monad.Yield (b x) (fun y =>
          Monad.Yield (h x y) (fun _ => Monad.StopIteration))))
  = Return (if is_None a then VNone
            else if is_None (b a) then VNone
            else h a (b a))
  /\ Monad.do (cls := Monad.Option) (fun _ => Monad.Yield VNone k) = Return VNone
  /\ Monad.do (cls := Monad.Result) (fun _ => Monad.Yield (Monad.Exception e) k')
     = Return (Monad.Exception e)
  /\ Monad.do (cls := Monad.Result) (fun _ =>
         Monad.Yield (Monad.Plain a) (fun x =>
           Monad.Yield (Monad.Exception e) k'))
     = Return (Monad.Exception e).
Proof.
  split; [|repeat split].
  unfold Monad.do. cbn [Monad.do_f Monad.bind Monad.ret Monad.Option].
  destruct (is_None a); [reflexivity|].
  destruct (is_None (b a)); [reflexivity|].
  destruct (h a (b a)); reflexivity.
Qed.

Lemma yield_from_each_flat_map {A B : Type} (g : A -> list B) (l : list A) :
  yield_from_each (fun x => Return (g x)) l = Return (flat_map g l).
Proof.
  induction l as [|x l IH]; simpl; [reflexivity | now rewrite IH].
Qed.

(** In the [List] monad a do-block over two yielded lists is the list
    comprehension over them, the first list varying slowest, provided no
    final value is [None] (else [do] raises, as for an empty generator). *)
Theorem List_do_is_comprehension
    (xs : list value) (ys : value -> list value) (h : value -> value -> value)
    (Hvalues : forall x y, is_None (h x y) = false) :
  Monad.do (cls := Monad.List) (fun _ =>
      Monad.Yield xs (fun x =>
        Monad.Yield (ys x) (fun y =>
          Monad.Yield [h x y] (fun _ => Monad.StopIteration))))
  = Return (flat_map (fun x => map (h x) (ys x)) xs).
Proof.
  unfold Monad.do. cbn [Monad.do_f Monad.bind Monad.List].
  rewrite <- yield_from_each_flat_map.
  apply yield_from_each_ext. intros x.
  rewrite <- yield_from_each_map.
  apply yield_from_each_ext. intros y.
  cbn. now rewrite Hvalues.
Qed.

Lemma List_do_is_comprehension_witness :
  Monad.do (cls := Monad.List) (fun _ =>
      Monad.Yield [VInt 1; VInt 2] (fun x =>
        Monad.Yield [VInt 2; VInt 3] (fun y =>
          Monad.Yield [VTuple [x; y]] (fun _ => Monad.StopIteration))))
  = Return [VTuple [VInt 1; VInt 2]; VTuple [VInt 1; VInt 3];
            VTuple [VInt 2; VInt 2]; VTuple [VInt 2; VInt 3]].
Proof.
  apply (List_do_is_comprehension [VInt 1; VInt 2]
           (fun _ => [VInt 2; VInt 3]) (fun x y => VTuple [x; y])).
  reflexivity.
Defined.

(** ** result.py : the Result monad and its merge *)

(** [Result.bind] and [Result.return_] satisfy the monad laws, and a failure
    passes through [bind] unchanged without the callback being run. *)
Theorem Result_monad_laws (B C D : Type) :
  (forall (a : B) (k : B -> Result.Result C),
      Result.bind (Result.return_ a) k = k a)
  /\ (forall r : Result.Result B, Result.bind r Result.return_ = r)
  /\ (forall (r : Result.Result B) (k : B -> Result.Result C)
             (g : C -> Result.Result D),
        Result.bind (Result.bind r k) g
        = Result.bind r (fun x => Result.bind (k x) g))
  /\ (forall (e : Result.Exception) (k : B -> Result.Result C),
        Result.bind (Result.failure e) k = Result.failure e).
Proof.
  repeat split.
  - intros [[y|e]]; reflexivity.
  - intros [[y|e]] k g; reflexivity.
Qed.

(** The merge keeps a success against a failure on either side; [zero()] is
    neutral on the right of every outcome, but on the left it is neutral for
    successes only: merged with a later failure it hides that failure's
    error behind its own. *)
Theorem Result_add_zero_and_success (B : Type) :
  (forall r : Result.Result B, Result.add r Result.zero = r)
  /\ (forall a : B, Result.add Result.zero (Result.return_ a) = Result.return_ a)
  /\ (forall e : Result.Exception,
        Result.add Result.zero (Result.failure e) = (Result.zero : Result.Result B))
  /\ (forall (a : B) (e : Result.Exception),
        Result.add (Result.failure e) (Result.return_ a) = Result.return_ a
        /\ Result.add (Result.return_ a) (Result.failure e) = Result.return_ a)
  /\ (forall r : Result.Result B, Result.add r r = r).
Proof.
  repeat split; try reflexivity; intros [[y|e]]; reflexivity.
Qed.

(** ** nonpositional.py : the tail of an alternative *)

Lemma map_snd_combine_seq (A : Type) (l : list A) (k : nat) :
  map snd (combine (seq k (List.length l)) l) = l.
Proof.
  revert k; induction l as [|x l IH]; intros k; cbn; [reflexivity|].
  now rewrite IH.
Qed.

Lemma without_from (A : Type) (l : list A) :
  forall k i,
    map snd (filter (fun '(j, _) => negb (Nat.eqb j (k + i)))
               (combine (seq k (List.length l)) l))
    = firstn i l ++ skipn (S i) l.
Proof.
  induction l as [|x l IH]; intros k i; cbn [List.length seq combine filter].
  - now destruct i.
  - destruct i as [|i].
    + rewrite Nat.add_0_r, Nat.eqb_refl. cbn [negb firstn skipn app].
      rewrite (filter_ext_in _ (fun _ => true)), filter_true.
      * apply map_snd_combine_seq.
      * intros [j y] Hin. apply in_combine_l, in_seq in Hin.
        destruct (Nat.eqb_spec j k); [lia | reflexivity].
    + destruct (Nat.eqb_spec k (k + S i)) as [Heq|_]; [lia|].
      change (firstn (S i) (x :: l) ++ skipn (S (S i)) (x :: l))
        with (x :: (firstn i l ++ skipn (S i) l)).
      cbn [negb map snd]. f_equal.
      rewrite <- (IH (S k) i). f_equal.
      apply filter_ext. intros [j y]. f_equal. f_equal. lia.
Qed.

(** The tail of the [i]-th alternative of [nonpositional] is the argument
    tuple without its [i]-th parser, the others in their order; so each
    recursive call is on a tuple exactly one shorter. *)
Theorem without_spec (A : Type) (i : nat) (l : list A) :
  without i l = firstn i l ++ skipn (S i) l
  /\ (i < List.length l -> S (List.length (without i l)) = List.length l).
Proof.
  assert (H : without i l = firstn i l ++ skipn (S i) l)
    by exact (without_from A l 0 i).
  split; [exact H|]. intros Hi.
  rewrite H, length_app, length_firstn, length_skipn. lia.
Qed.
